(** * PII redaction engine: a shallow embedding of [backend/pii_detector.py]
    and of the text endpoint of [backend/main.py], with the properties of
    the span resolver, the label assigner and the text rewriter. *)

From Stdlib Require Import ZArith NArith Ascii String List DecimalString DecimalZ
  DecimalPos Lia.
From stdpp Require Import base option list gmap sorting.

Set Warnings "-register-all".
Open Scope Z_scope.

(** ** Python values *)

(** A Python [str] is a sequence of Unicode code points. *)
Abbreviation char := N (only parsing).
Abbreviation str := (list N) (only parsing).

(** A literal of the source, written as a Rocq string of ASCII characters. *)
Definition py (s : string) : str := N_of_ascii <$> list_ascii_of_string s.

(** [len(s)] *)
Definition len (s : str) : Z := Z.of_nat (length s).

(** [str(n)] for an [int]. *)
Definition str_of_int (n : Z) : str := py (NilZero.string_of_int (Z.to_int n)).

(** The values a JSON body or a JSON answer of the oracle can hold. The
    numbers are the integers: a body or an answer that holds a number with
    a fraction or an exponent is not among the inputs considered here. *)
Inductive pyval : Type :=
  | VNone
  | VBool (b : bool)
  | VInt (z : Z)
  | VStr (s : str)
  | VList (l : list pyval)
  | VDict (d : list (str * pyval)).

(** Truth value of an object in a condition. *)
Definition truthy (v : pyval) : bool :=
  match v with
  | VNone => false
  | VBool b => b
  | VInt z => negb (z =? 0)
  | VStr s => negb (bool_decide (s = []))
  | VList l => match l with [] => false | _ => true end
  | VDict d => match d with [] => false | _ => true end
  end.

(** [v == s] for a string [s]: only an equal string is equal to a string. *)
Definition eq_str (v : pyval) (s : str) : bool :=
  match v with
  | VStr t => bool_decide (t = s)
  | _ => false
  end.

(** [isinstance(v, int)]: a [bool] is an [int] in Python, [True] being 1
    and [False] 0. *)
Definition as_int (v : pyval) : option Z :=
  match v with
  | VInt z => Some z
  | VBool b => Some (if b then 1 else 0)
  | _ => None
  end.

Definition is_int (v : pyval) : bool :=
  match as_int v with
  | Some _ => true
  | None => false
  end.

Definition is_str (v : pyval) : bool :=
  match v with
  | VStr _ => true
  | _ => false
  end.

(** [d[k]] as a lookup, on a dict that holds each key once. *)
Fixpoint dict_lookup {V : Type} (d : list (str * V)) (k : str) : option V :=
  match d with
  | [] => None
  | (k', v) :: d' => if bool_decide (k' = k) then Some v else dict_lookup d' k
  end.

(** [a == b] on JSON values: numbers by their value ([True == 1]), strings
    and [None] by identity of the value, lists element by element, dicts
    key by key whatever the order; values of different kinds are not
    equal. Nothing raises. *)
Fixpoint py_eq (a b : pyval) {struct a} : bool :=
  match a, b with
  | VNone, VNone => true
  | VBool x, VBool y => bool_decide (x = y)
  | VBool x, VInt z => (if x then 1 else 0) =? z
  | VInt z, VBool x => z =? (if x then 1 else 0)
  | VInt x, VInt y => x =? y
  | VStr s, VStr t => bool_decide (s = t)
  | VList l, VList l' =>
      (fix all2 (l l' : list pyval) {struct l} : bool :=
         match l, l' with
         | [], [] => true
         | x :: l, y :: l' => py_eq x y && all2 l l'
         | _, _ => false
         end) l l'
  | VDict d, VDict d' =>
      bool_decide (length d = length d')
      && (fix all (d : list (str * pyval)) {struct d} : bool :=
            match d with
            | [] => true
            | kv :: d =>
                match dict_lookup d' kv.1 with
                | Some v' => py_eq kv.2 v'
                | None => false
                end && all d
            end) d
  | _, _ => false
  end.

(** [d.get(k, dflt)] on a dict kept in insertion order. *)
Fixpoint dict_get {V : Type} (d : list (str * V)) (k : str) (dflt : V) : V :=
  match d with
  | [] => dflt
  | (k', v) :: d' => if bool_decide (k' = k) then v else dict_get d' k dflt
  end.

(** The exceptions the engine can raise. *)
Inductive gemini_failure : Type :=
  | QuotaExceeded
  | ValidationFailed
  | DiscoveryFailed
  | ExplanationFailed.

Inductive exn : Type :=
  | TypeError
  | ValueError
  | RuntimeError (why : gemini_failure).

Inductive result (A : Type) : Type :=
  | Ok (a : A)
  | Raise (e : exn).
Arguments Ok {A} a.
Arguments Raise {A} e.

(** ** String operations of the source *)

(** [s.startswith(pre)] *)
Fixpoint startswith (s pre : str) : bool :=
  match pre, s with
  | [], _ => true
  | _ :: _, [] => false
  | p :: pre', c :: s' => bool_decide (c = p) && startswith s' pre'
  end.

(** [sub in s] *)
Fixpoint contains (s sub : str) : bool :=
  startswith s sub ||
  match s with
  | [] => false
  | _ :: s' => contains s' sub
  end.

(** Slice bounds: a negative index counts from the end, and every index is
    clamped to [0, len]. *)
Definition clamp (n i : Z) : nat :=
  Z.to_nat (if i <? 0 then Z.max 0 (n + i) else Z.min i n).

(** [s[a:b]], [s[:b]] and [s[a:]] *)
Definition slice (s : str) (a b : Z) : str :=
  take (clamp (len s) b - clamp (len s) a) (drop (clamp (len s) a) s).
Definition slice_to (s : str) (b : Z) : str := take (clamp (len s) b) s.
Definition slice_from (s : str) (a : Z) : str := drop (clamp (len s) a) s.

(** ** Detections *)

(** A detection dict, with the keys the source reads or writes. What is
    stored under "value", "start" and "end" is any value: the producers
    store a string and two integers, a span the oracle has discovered
    holds what the oracle's JSON held. *)
Record Item : Type := mkStored {
  type_ : str;
  stored_value : pyval;
  stored_start : pyval;
  stored_end : pyval;
  gemini_reasoning : option pyval;
  gemini_discovered : bool;
  confidence : option pyval;
  reasoning : option pyval
}.

(** [x["value"]], [x["start"]] and [x["end"]] where the source computes
    with them as a string and as integers. The producers, the merger, the
    name pool and the validation meet the spans of the producers only,
    which hold a string and two integers ([is_typed] below). The rewriter
    can meet a span of the oracle, and what raises there is decided on the
    stored values before these are used: [offsets_are_ints] and
    [value_matches]. *)
Definition value (item : Item) : str :=
  match stored_value item with
  | VStr s => s
  | _ => []
  end.

Definition start (item : Item) : Z := default 0 (as_int (stored_start item)).
Definition end_ (item : Item) : Z := default 0 (as_int (stored_end item)).
Arguments value !_ /.
Arguments start !_ /.
Arguments end_ !_ /.

(** A detection dict with a string value and integer offsets. *)
Definition mkItem (ty v : str) (s e : Z) (gemini_reasoning_ : option pyval)
    (gemini_discovered_ : bool) (confidence_ reasoning_ : option pyval) : Item :=
  mkStored ty (VStr v) (VInt s) (VInt e) gemini_reasoning_ gemini_discovered_
           confidence_ reasoning_.

(** A detection produced by a pattern or by the entity recognizer. *)
Definition detection (ty v : str) (s e : Z) : Item :=
  mkItem ty v s e None false None None.

(** [{**item, "redaction_label": label}] *)
Record Labelled : Type := mkLabelled {
  det : Item;
  redaction_label : pyval
}.

Abbreviation Settings := (gmap (list N) pyval) (only parsing).
Abbreviation Detections := (list (list N * list Item)) (only parsing).

(** [settings.get(key, dflt)] *)
Definition settings_get (settings : Settings) (key : str) (dflt : pyval) : pyval :=
  default dflt (settings !! key).

(** ** The label assigner *)

Definition type_labels : list (str * str) :=
  [ (py "email", py "EMAIL");
    (py "phone", py "PHONE");
    (py "name", py "NAME");
    (py "address", py "ADDRESS");
    (py "ssn", py "SSN");
    (py "credit_card", py "CARD") ].

(** U+2588 FULL BLOCK *)
Definition full_block : char := 9608%N.

Definition get_redaction_label (pii_type : str) (index : Z) (settings : Settings)
  : pyval :=
  let style := settings_get settings (py "redaction_style") (VStr (py "labels")) in
  if eq_str style (py "black_boxes") then VStr (replicate 8 full_block)
  else if eq_str style (py "custom") then
    settings_get settings (py "custom_label") (VStr (py "[REDACTED]"))
  else
    let label := dict_get type_labels pii_type (py "REDACTED") in
    VStr (py "[" ++ label ++ py "_" ++ str_of_int (index + 1) ++ py "]").

(** ** The rewriter: [PIIDetector.redact_text] *)

(** The category flag [settings.get(f"redact_{pii_type}", True)]. *)
Definition category_enabled (settings : Settings) (pii_type : str) : bool :=
  truthy (settings_get settings (py "redact_" ++ pii_type) (VBool true)).

(** One pass of the inner collection loop; the state is [all_detections]
    and the [defaultdict(int)] [type_counts]. *)
Definition collect_item (settings : Settings) (pii_type : str)
    (st : list Labelled * gmap (list N) Z) (item : Item)
  : list Labelled * gmap (list N) Z :=
  let '(all_detections, type_counts) := st in
  if category_enabled settings pii_type then
    let type_counts' :=
      <[pii_type := default 0 (type_counts !! pii_type) + 1]> type_counts in
    let index := default 0 (type_counts' !! pii_type) - 1 in
    (all_detections ++
       [mkLabelled item (get_redaction_label pii_type index settings)],
     type_counts')
  else st.

Definition collect_category (settings : Settings)
    (st : list Labelled * gmap (list N) Z) (entry : str * list Item)
  : list Labelled * gmap (list N) Z :=
  foldl (collect_item settings entry.1) st entry.2.

Definition collect (settings : Settings) (detections : Detections)
  : list Labelled * gmap (list N) Z :=
  foldl (collect_category settings) ([], ∅) detections.

Definition all_detections (settings : Settings) (detections : Detections)
  : list Labelled :=
  (collect settings detections).1.

(** [list.sort] is stable: an element goes before the first one it may
    precede, elements being inserted from the last to the first. *)
Fixpoint insert_sorted {A : Type} (le : A → A → bool) (x : A) (l : list A)
  : list A :=
  match l with
  | [] => [x]
  | y :: l' => if le x y then x :: l else y :: insert_sorted le x l'
  end.

Definition stable_sort {A : Type} (le : A → A → bool) (l : list A) : list A :=
  foldr (insert_sorted le) [] l.

Definition span_length (d : Labelled) : Z := end_ (det d) - start (det d).

(** [key=lambda x: (-(x["end"] - x["start"]), x["start"])], tuples compared
    lexicographically. *)
Definition size_key_le (a b : Labelled) : bool :=
  (- span_length a <? - span_length b) ||
  ((- span_length a =? - span_length b) && (start (det a) <=? start (det b))).

(** [key=lambda x: x["start"], reverse=True] *)
Definition start_desc_le (a b : Labelled) : bool :=
  start (det b) <=? start (det a).

(** [not (det["end"] <= kept["start"] or det["start"] >= kept["end"])] *)
Definition overlaps (d kept : Labelled) : bool :=
  negb ((end_ (det d) <=? start (det kept)) || (start (det d) >=? end_ (det kept))).

Definition keep_step (filtered_detections : list Labelled) (d : Labelled)
  : list Labelled :=
  if existsb (overlaps d) filtered_detections then filtered_detections
  else filtered_detections ++ [d].

Definition remove_overlaps (all : list Labelled) : list Labelled :=
  foldl keep_step [] all.

(** The sort key [(-(x["end"] - x["start"]), x["start"])]: the
    subtraction is a [TypeError] unless both offsets are integers. *)
Definition offsets_are_ints (d : Labelled) : bool :=
  is_int (stored_start (det d)) && is_int (stored_end (det d)).

(** The guard and the value check in front of a substitution. *)
Definition in_range (text : str) (d : Labelled) : bool :=
  (0 <=? start (det d)) && (start (det d) <? end_ (det d))
  && (end_ (det d) <=? len text).

(** [original_text_at_pos == detected_value or detected_value in
    original_text_at_pos]: a value that is not a string is equal to no
    string, and [in] takes a string only. *)
Definition value_matches (original_text_at_pos : str) (detected_value : pyval)
  : result bool :=
  match detected_value with
  | VStr v =>
      Ok (bool_decide (original_text_at_pos = v) || contains original_text_at_pos v)
  | _ => Raise TypeError
  end.

(** The test of one span: [Ok true] when the span is to be replaced,
    [Ok false] when it is passed over, an exception when the test itself
    fails. *)
Definition check (text : str) (d : Labelled) : result bool :=
  if in_range text d
  then value_matches (slice text (start (det d)) (end_ (det d)))
                     (stored_value (det d))
  else Ok false.

Definition applies (text : str) (d : Labelled) : bool :=
  match check text d with
  | Ok b => b
  | Raise _ => false
  end.

(** [a + label + b]: concatenating a [str] with anything else is a
    [TypeError]. *)
Definition splice_label (before : str) (label : pyval) (after : str) : result str :=
  match label with
  | VStr l => Ok (before ++ l ++ after)
  | _ => Raise TypeError
  end.

Definition rewrite_step (text : str) (redacted_text : str) (d : Labelled)
  : result str :=
  match check text d with
  | Ok true =>
      splice_label (slice_to redacted_text (start (det d)))
                   (redaction_label d)
                   (slice_from redacted_text (end_ (det d)))
  | Ok false => Ok redacted_text
  | Raise e => Raise e
  end.

Fixpoint rewrite_loop (text : str) (plan : list Labelled) (redacted_text : str)
  : result str :=
  match plan with
  | [] => Ok redacted_text
  | d :: plan' =>
      match rewrite_step text redacted_text d with
      | Ok redacted_text' => rewrite_loop text plan' redacted_text'
      | Raise e => Raise e
      end
  end.

(** [filtered_detections] after the second sort: the plan the rewriter
    walks. *)
Definition redaction_plan (settings : Settings) (detections : Detections)
  : list Labelled :=
  stable_sort start_desc_le
    (remove_overlaps (stable_sort size_key_le (all_detections settings detections))).

(** [list.sort] computes the key of every element before it compares
    any. *)
Definition redact_text (text : str) (detections : Detections) (settings : Settings)
  : result str :=
  match all_detections settings detections with
  | [] => Ok text
  | _ :: _ =>
      if forallb offsets_are_ints (all_detections settings detections)
      then rewrite_loop text (redaction_plan settings detections) text
      else Raise TypeError
  end.

(** The spans the rewriter substitutes. *)
Definition applied_spans (text : str) (settings : Settings) (detections : Detections)
  : list Labelled :=
  filter (λ d, applies text d = true) (redaction_plan settings detections).

(** ** More string operations *)

(** [s.find(sub)]: the first index where [sub] occurs, or -1. *)
Fixpoint find_from (s sub : str) (i : Z) : Z :=
  if startswith s sub then i
  else match s with
       | [] => -1
       | _ :: s' => find_from s' sub (i + 1)
       end.

Definition find (s sub : str) : Z := find_from s sub 0.

(** The text before and after the first occurrence of [sep]. *)
Fixpoint partition (s sep : str) : option (str * str) :=
  if startswith s sep then Some ([], drop (length sep) s)
  else match s with
       | [] => None
       | c :: s' =>
           match partition s' sep with
           | Some (before, after) => Some (c :: before, after)
           | None => None
           end
       end.

(** [s.split(sep)] for a separator that is not empty: each occurrence takes
    at least one character, so [length s] rounds are enough. *)
Fixpoint split_rounds (n : nat) (s sep : str) : list str :=
  match n with
  | O => [s]
  | S n' =>
      match partition s sep with
      | Some (before, after) => before :: split_rounds n' after sep
      | None => [s]
      end
  end.

Definition split (s sep : str) : list str := split_rounds (length s) s sep.

(** [parts[i]], for an index the source has made sure exists. *)
Definition part (parts : list str) (i : nat) : str := default [] (parts !! i).

(** [str.isspace] on one character. *)
Definition isspace (c : char) : bool :=
  ((9 <=? c) && (c <=? 13) || (28 <=? c) && (c <=? 32)
   || (c =? 133) || (c =? 160) || (c =? 5760)
   || (8192 <=? c) && (c <=? 8202)
   || (c =? 8232) || (c =? 8233) || (c =? 8239) || (c =? 8287)
   || (c =? 12288))%N.

Fixpoint lstrip_by (drop_it : char → bool) (s : str) : str :=
  match s with
  | [] => []
  | c :: s' => if drop_it c then lstrip_by drop_it s' else s
  end.

Definition rstrip_by (drop_it : char → bool) (s : str) : str :=
  reverse (lstrip_by drop_it (reverse s)).

(** [s.strip()] *)
Definition strip (s : str) : str := rstrip_by isspace (lstrip_by isspace s).

(** [s.rstrip('s')] *)
Definition rstrip_s (s : str) : str :=
  rstrip_by (λ c, bool_decide (c = 115%N)) s.

(** [sep.join(parts)] *)
Fixpoint join (sep : str) (parts : list str) : str :=
  match parts with
  | [] => []
  | [p] => p
  | p :: rest => p ++ sep ++ join sep rest
  end.

(** ** Library functions and collaborators *)

(** What the engine takes from the Python library: the JSON reader
    ([None] stands for [json.JSONDecodeError]), [str.lower], the digit
    class [\d] of [re], and the text [format] gives for a list or a dict. *)
Record Library : Type := {
  json_loads : str → option pyval;
  lower : str → str;
  isdigit : char → bool;
  repr_container : pyval → str
}.

(** What the [f"{v}"] of a JSON value prints. *)
Definition format_value (lib : Library) (v : pyval) : str :=
  match v with
  | VStr s => s
  | VNone => py "None"
  | VBool true => py "True"
  | VBool false => py "False"
  | VInt z => str_of_int z
  | _ => repr_container lib v
  end.

(** A match of a compiled pattern: [group()], [start()], [end()]. *)
Record Match : Type := mkMatch {
  group : str;
  m_start : Z;
  m_end : Z
}.

(** A match of the username pattern, with its capture group 1. *)
Record UMatch : Type := mkUMatch {
  whole : Match;
  group1 : Match
}.

(** An entity of the spaCy document. *)
Record Entity : Type := mkEntity {
  label_ : str;
  ent_text : str;
  start_char : Z;
  end_char : Z
}.

(** The three prompts; the prompt sent is a fixed text around these
    fields. *)
Inductive Prompt : Type :=
  | ValidatePrompt (context candidate pii_type : str)
  | DiscoverPrompt (text_head existing : str)
  | ExplainPrompt (summary : str).

(** The detector object: its compiled patterns ([finditer] of each), the
    module's [nlp] and the Gemini model, which answers a prompt with a
    text or fails with an exception whose text is [str(e)], and may answer
    the same prompt differently from one call to the next. *)
Record PIIDetector (World : Type) : Type := {
  email_pattern : str → list Match;
  phone_patterns : list (str → list Match);
  ssn_pattern : str → list Match;
  credit_card_pattern : str → list Match;
  address_patterns : list (str → list Match);
  username_pattern : str → list UMatch;
  nlp : option (str → list Entity);
  generate_content : Prompt → World → (str + str) * World
}.
Arguments email_pattern {World}.
Arguments phone_patterns {World}.
Arguments ssn_pattern {World}.
Arguments credit_card_pattern {World}.
Arguments address_patterns {World}.
Arguments username_pattern {World}.
Arguments nlp {World}.
Arguments generate_content {World}.

(** Computations that call the oracle: the state of the world is threaded
    through, an exception ends the computation. *)
Definition M (World A : Type) : Type := World → result A * World.

#[global] Instance M_ret {World : Type} : MRet (M World) :=
  λ A a w, (Ok a, w).

#[global] Instance M_bind {World : Type} : MBind (M World) :=
  λ A B k m w,
    match m w with
    | (Ok a, w') => k a w'
    | (Raise e, w') => (Raise e, w')
    end.

Definition raise {World A : Type} (e : exn) : M World A := λ w, (Raise e, w).

(** A computation without effects that may raise. *)
Definition lift {World A : Type} (r : result A) : M World A := λ w, (r, w).

(** [for x in xs: acc = body(acc, x)] *)
Fixpoint for_each {World A S : Type} (body : S → A → M World S)
    (xs : list A) (acc : S) : M World S :=
  match xs with
  | [] => mret acc
  | x :: xs' => acc' ← body acc x; for_each body xs' acc'
  end.

Section Engine.

Context {World : Type}.
Variable lib : Library.
Variable self : PIIDetector World.

(** ** The oracle adapter: [GeminiValidator] *)

(** The handler [except Exception as e] of the three operations. *)
Definition gemini_error (what : gemini_failure) (error_msg : str) : exn :=
  if contains error_msg (py "429")
     || contains (lower lib error_msg) (py "quota")
     || contains (lower lib error_msg) (py "exceeded")
  then RuntimeError QuotaExceeded
  else RuntimeError what.

(** [self.model.generate_content(prompt).text.strip()] inside the [try]. *)
Definition ask (what : gemini_failure) (prompt : Prompt) : M World str :=
  λ w, match generate_content self prompt w with
       | (inl error_msg, w') => (Raise (gemini_error what error_msg), w')
       | (inr response_text, w') => (Ok (strip response_text), w')
       end.

(** The answer taken out of its code fence, when it has one. *)
Definition unfence (result_text : str) : str :=
  if contains result_text (py "```json") then
    strip (part (split (part (split result_text (py "```json")) 1) (py "```")) 0)
  else if contains result_text (py "```") then
    strip (part (split (part (split result_text (py "```")) 1) (py "```")) 0)
  else result_text.

(** What [validate_pii] makes of the answer text. A JSON value that is
    not a dict has no [get]: the [AttributeError] reaches the outer handler,
    and its text names no quota. *)
Definition read_validation (result_text : str) : result (pyval * pyval) :=
  let result_text := unfence result_text in
  match json_loads lib result_text with
  | Some (VDict result) =>
      Ok (dict_get result (py "is_pii") (VBool true),
          dict_get result (py "reasoning") (VStr (py "No reasoning provided")))
  | Some _ => Raise (RuntimeError ValidationFailed)
  | None =>
      if contains (lower lib result_text) (py "false")
         || contains (lower lib result_text) (py "not pii")
      then Ok (VBool false, VStr result_text)
      else Ok (VBool true, VStr result_text)
  end.

Definition validate_pii (text candidate pii_type context : str)
  : M World (pyval * pyval) :=
  result_text ← ask ValidationFailed (ValidatePrompt context candidate pii_type);
  lift (read_validation result_text).

(** An entry of [discover_pii]'s list. *)
Record Discovery : Type := mkDiscovery {
  nd_type : pyval;
  nd_value : pyval;
  nd_start : pyval;
  nd_end : pyval;
  nd_confidence : pyval;
  nd_reasoning : pyval
}.

(** [v == -1] *)
Definition is_minus_one (v : pyval) : bool := py_eq v (VInt (-1)).

(** One round of the loop over [new_detections]; [None] is [continue].
    An entry that is not a dict has no [get], and [text.find] takes a
    string only: both errors reach the outer handler. An entry that gives
    both offsets is kept as it is, whatever its value and its offsets
    are. *)
Definition read_discovery (text : str) (det : pyval) : result (option Discovery) :=
  match det with
  | VDict d =>
      let value := dict_get d (py "value") (VStr []) in
      let start := dict_get d (py "start") (VInt (-1)) in
      let end_ := dict_get d (py "end") (VInt (-1)) in
      let entry (v s e : pyval) :=
        mkDiscovery (dict_get d (py "type") (VStr (py "other"))) v s e
                    (dict_get d (py "confidence") (VStr (py "medium")))
                    (dict_get d (py "reasoning") (VStr [])) in
      if is_minus_one start || is_minus_one end_ then
        match value with
        | VStr v =>
            let pos := find text v in
            if pos =? -1 then Ok None
            else Ok (Some (entry value (VInt pos) (VInt (pos + len v))))
        | _ => Raise (RuntimeError DiscoveryFailed)
        end
      else Ok (Some (entry value start end_))
  | _ => Raise (RuntimeError DiscoveryFailed)
  end.

Fixpoint read_discoveries (text : str) (dets : list pyval) : result (list Discovery) :=
  match dets with
  | [] => Ok []
  | det :: dets' =>
      match read_discovery text det with
      | Raise e => Raise e
      | Ok entry =>
          match read_discoveries text dets' with
          | Raise e => Raise e
          | Ok validated => Ok (from_option (λ x, [x]) [] entry ++ validated)
          end
      end
  end.

(** What [for det in v] iterates over; [None] when [v] is not iterable. *)
Definition iterate (v : pyval) : option (list pyval) :=
  match v with
  | VList l => Some l
  | VStr s => Some ((λ c, VStr [c]) <$> s)
  | VDict d => Some ((λ kv, VStr kv.1) <$> d)
  | _ => None
  end.

Definition read_discovery_answer (text result_text : str) : result (list Discovery) :=
  match json_loads lib (unfence result_text) with
  | Some (VDict result) =>
      match iterate (dict_get result (py "new_detections") (VList [])) with
      | Some dets => read_discoveries text dets
      | None => Raise (RuntimeError DiscoveryFailed)
      end
  | Some _ => Raise (RuntimeError DiscoveryFailed)
  | None => Ok []
  end.

(** The lines [f"{pii_type}: {len(items)} <word>"] of the categories that
    have items. *)
Definition summary_lines (word : str) (detections : Detections) : list str :=
  omap (λ entry : str * list Item,
          match entry.2 with
          | [] => None
          | _ :: _ =>
              Some (entry.1 ++ py ": " ++ str_of_int (Z.of_nat (length entry.2))
                    ++ py " " ++ word)
          end) detections.

Definition joined_or (lines : list str) (otherwise : str) : str :=
  match lines with
  | [] => otherwise
  | _ :: _ => join (py ", ") lines
  end.

Definition discover_pii (text : str) (existing_detections : Detections)
  : M World (list Discovery) :=
  let existing_summary := summary_lines (py "found") existing_detections in
  result_text ← ask DiscoveryFailed
    (DiscoverPrompt (slice_to text 2000) (joined_or existing_summary (py "None")));
  lift (read_discovery_answer text result_text).

Definition explain_redaction (text : str) (detections : Detections) : M World str :=
  let summary := summary_lines (py "detected") detections in
  ask ExplanationFailed (ExplainPrompt (joined_or summary (py "No PII detected"))).

(** ** The span producers *)

(** [settings.get(key, True)] as a condition. *)
Definition flag (settings : Settings) (key : string) : bool :=
  truthy (settings_get settings (py key) (VBool true)).

Definition match_item (ty : string) (m : Match) : Item :=
  detection (py ty) (group m) (m_start m) (m_end m).

(** [len(re.sub(r'\D', '', s))] *)
Definition digit_count (s : str) : Z :=
  len (filter (λ c, isdigit lib c = true) s).

Definition detect_emails (text : str) (settings : Settings) : list Item :=
  if negb (flag settings "redact_emails") then []
  else match_item "email" <$> email_pattern self text.

Definition phone_step (st : list Item * gset (Z * Z)) (m : Match)
  : list Item * gset (Z * Z) :=
  let '(phones, seen_positions) := st in
  let pos := (m_start m, m_end m) in
  if bool_decide (pos ∈ seen_positions) then st
  else
    let seen_positions := {[pos]} ∪ seen_positions in
    if 10 <=? digit_count (group m)
    then (phones ++ [match_item "phone" m], seen_positions)
    else (phones, seen_positions).

Definition detect_phones (text : str) (settings : Settings) : list Item :=
  if negb (flag settings "redact_phones") then []
  else (foldl (λ st pattern, foldl phone_step st (pattern text))
              ([], ∅) (phone_patterns self)).1.

Definition detect_ssn (text : str) (settings : Settings) : list Item :=
  if negb (flag settings "redact_ssn") then []
  else match_item "ssn" <$> ssn_pattern self text.

Definition detect_credit_cards (text : str) (settings : Settings) : list Item :=
  if negb (flag settings "redact_credit_cards") then []
  else match_item "credit_card"
         <$> filter (λ m, digit_count (group m) = 16) (credit_card_pattern self text).

Definition address_step (st : list Item * gset (Z * Z)) (m : Match)
  : list Item * gset (Z * Z) :=
  let '(addresses, seen_positions) := st in
  let pos := (m_start m, m_end m) in
  if bool_decide (pos ∈ seen_positions) then st
  else (addresses ++ [match_item "address" m], {[pos]} ∪ seen_positions).

Definition detect_addresses (text : str) (settings : Settings) : list Item :=
  if negb (flag settings "redact_addresses") then []
  else (foldl (λ st pattern, foldl address_step st (pattern text))
              ([], ∅) (address_patterns self)).1.

(** ** Person names and the fragment merger *)

Definition name_step (st : list Item * gset (Z * Z)) (ent : Entity)
  : list Item * gset (Z * Z) :=
  let '(names, seen_positions) := st in
  if bool_decide (label_ ent = py "PERSON") then
    if len (strip (ent_text ent)) <? 2 then st
    else
      let pos := (start_char ent, end_char ent) in
      if bool_decide (pos ∈ seen_positions) then st
      else (names ++ [detection (py "name") (strip (ent_text ent))
                                (start_char ent) (end_char ent)],
            {[pos]} ∪ seen_positions)
  else st.

(** [key=lambda x: x["start"]] *)
Definition start_le (a b : Item) : bool := start a <=? start b.

(** The dict [current] becomes when it takes [next_name] in. *)
Definition absorb (current next_name : Item) : Item :=
  detection (py "name") (value current ++ py " " ++ value next_name)
            (start current) (end_ next_name).

(** The inner [while j < len(names_sorted)]: [rest] is
    [names_sorted[j:]]; the loop gives back [current] and what is left of
    the list when it stops. *)
Fixpoint absorb_loop (current : Item) (rest : list Item) : Item * list Item :=
  match rest with
  | [] => (current, [])
  | next_name :: rest' =>
      if start next_name - end_ current <=? 5
      then absorb_loop (absorb current next_name) rest'
      else (current, rest)
  end.

(** The outer [while i < len(names_sorted)]: [from_i] is
    [names_sorted[i:]]. Each round takes at least one span, so
    [len(names_sorted)] rounds are enough. *)
Fixpoint merge_loop (rounds : nat) (from_i merged_names : list Item) : list Item :=
  match rounds, from_i with
  | S rounds', current :: rest =>
      let '(current, from_j) := absorb_loop current rest in
      merge_loop rounds' from_j (merged_names ++ [current])
  | _, _ => merged_names
  end.

Definition merge_names (names : list Item) : list Item :=
  let names_sorted := stable_sort start_le names in
  merge_loop (length names_sorted) names_sorted [].

Definition detect_names (text : str) (settings : Settings) : list Item :=
  match nlp self with
  | Some nlp_call =>
      if negb (flag settings "redact_names") then []
      else merge_names (foldl name_step ([], ∅) (nlp_call text)).1
  | None => []
  end.

Definition username_step (text : str) (st : list Item * gset (Z * Z)) (m : UMatch)
  : list Item * gset (Z * Z) :=
  let '(usernames, seen_positions) := st in
  let pos := (m_start (group1 m), m_end (group1 m)) in
  if bool_decide (pos ∈ seen_positions) then st
  else
    let seen_positions := {[pos]} ∪ seen_positions in
    let email_context :=
      slice text (Z.max 0 (m_start (whole m) - 10))
                 (Z.min (len text) (m_end (whole m) + 10)) in
    if contains email_context (py "@") then (usernames, seen_positions)
    else (usernames ++ [detection (py "name") (group (group1 m)) pos.1 pos.2],
          seen_positions).

Definition detect_usernames (text : str) (settings : Settings) : list Item :=
  if negb (flag settings "redact_names") then []
  else (foldl (username_step text) ([], ∅) (username_pattern self text)).1.

(** ** The pipeline: [PIIDetector.detect_all] *)

(** [not (a["end"] <= b["start"] or a["start"] >= b["end"])] *)
Definition ranges_overlap (a b : Item) : bool :=
  negb ((end_ a <=? start b) || (start a >=? end_ b)).

(** One round of [for username in usernames]: [name_positions] was built
    before the loop, [names] grows in it. *)
Definition add_username (name_positions : gset (Z * Z)) (names : list Item)
    (username : Item) : list Item :=
  if bool_decide ((start username, end_ username) ∈ name_positions) then names
  else if existsb (ranges_overlap username) names then names
  else names ++ [username].

(** [text[max(0, start - 100):min(len(text), end + 100)]] *)
Definition context_window (text : str) (item : Item) : str :=
  slice text (Z.max 0 (start item - 100)) (Z.min (len text) (end_ item + 100)).

(** [item["gemini_reasoning"] = reasoning] *)
Definition with_reasoning (item : Item) (reasoning_ : pyval) : Item :=
  mkStored (type_ item) (stored_value item) (stored_start item) (stored_end item)
           (Some reasoning_) (gemini_discovered item) (confidence item)
           (reasoning item).

Definition validate_item (text pii_type : str) (item : Item) : M World (pyval * pyval) :=
  validate_pii text (value item) pii_type (context_window text item).

(** [abs(a["start"] - b["end"]) <= 5 or abs(a["end"] - b["start"]) <= 5] *)
Definition near (a b : Item) : bool :=
  (Z.abs (start a - end_ b) <=? 5) || (Z.abs (end_ a - start b) <=? 5).

(** [item] joins the first group that has a member near it. *)
Fixpoint add_to_group (name_groups : list (list Item)) (item : Item)
  : option (list (list Item)) :=
  match name_groups with
  | [] => None
  | group_ :: groups' =>
      if existsb (near item) group_ then Some ((group_ ++ [item]) :: groups')
      else cons group_ <$> add_to_group groups' item
  end.

Definition group_step (name_groups : list (list Item)) (item : Item)
  : list (list Item) :=
  match add_to_group name_groups item with
  | Some groups' => groups'
  | None => name_groups ++ [[item]]
  end.

Definition minimum (first : Z) (rest : list Z) : Z := foldl Z.min first rest.
Definition maximum (first : Z) (rest : list Z) : Z := foldl Z.max first rest.

(** One round of [for group in name_groups]. *)
Definition validate_group (text pii_type : str) (validated_items : list Item)
    (group_ : list Item) : M World (list Item) :=
  match group_ with
  | [] => mret validated_items
  | first :: ((_ :: _) as others) =>
      let merged_name :=
        detection (py "name")
          (join (py " ") (stable_sort (λ _ _ : str, true) (value <$> group_)))
          (minimum (start first) (start <$> others))
          (maximum (end_ first) (end_ <$> others)) in
      '(is_valid, reasoning_) ← validate_item text pii_type merged_name;
      if truthy is_valid
      then mret (validated_items ++ [with_reasoning merged_name reasoning_])
      else mret (validated_items ++
                   [with_reasoning merged_name
                      (VStr (py "Full name context: " ++ format_value lib reasoning_))])
  | [item] =>
      '(is_valid, reasoning_) ← validate_item text pii_type item;
      if truthy is_valid
      then mret (validated_items ++ [with_reasoning item reasoning_])
      else if existsb (near item) validated_items
      then mret (validated_items ++
                   [with_reasoning item
                      (VStr (py "Part of full name context: "
                             ++ format_value lib reasoning_))])
      else mret validated_items
  end.

(** One round of [for item in items] for the other categories. *)
Definition validate_single (text pii_type : str) (validated_items : list Item)
    (item : Item) : M World (list Item) :=
  '(is_valid, reasoning_) ← validate_item text pii_type item;
  if truthy is_valid
  then mret (validated_items ++ [with_reasoning item reasoning_])
  else mret validated_items.

Definition validate_category (text : str) (validated_results : Detections)
    (entry : str * list Item) : M World Detections :=
  let '(pii_type, items) := entry in
  validated_items ←
    (if bool_decide (pii_type = py "names") then
       let items_sorted := stable_sort start_le items in
       let name_groups := foldl group_step [] items_sorted in
       for_each (validate_group text pii_type) name_groups []
     else for_each (validate_single text pii_type) items []);
  mret (validated_results ++ [(pii_type, validated_items)]).

Definition type_mapping : list (str * str) :=
  [ (py "email", py "emails");
    (py "phone", py "phones");
    (py "name", py "names");
    (py "address", py "addresses");
    (py "ssn", py "ssn");
    (py "credit_card", py "credit_cards");
    (py "username", py "names") ].

(** [type_mapping.get(det_type, "names")]: a list or a dict cannot be
    hashed. *)
Definition mapped_type_of (det_type : pyval) : result str :=
  match det_type with
  | VStr s => Ok (dict_get type_mapping s (py "names"))
  | VList _ | VDict _ => Raise TypeError
  | _ => Ok (py "names")
  end.

(** [d[k].append(v)], after [d[k] = []] when [k] is not in [d]. *)
Fixpoint dict_append {V : Type} (d : list (str * list V)) (k : str) (v : V)
  : list (str * list V) :=
  match d with
  | [] => [(k, [v])]
  | (k', l) :: d' =>
      if bool_decide (k' = k) then (k', l ++ [v]) :: d'
      else (k', l) :: dict_append d' k v
  end.

(** One round of [for new_det in new_detections]. *)
Definition add_discovery (validated_results : Detections) (new_det : Discovery)
  : result Detections :=
  match mapped_type_of (nd_type new_det) with
  | Raise e => Raise e
  | Ok mapped_type =>
      let is_duplicate :=
        existsb (λ existing, py_eq (stored_start existing) (nd_start new_det)
                             && py_eq (stored_end existing) (nd_end new_det))
                (dict_get validated_results mapped_type []) in
      if is_duplicate then Ok validated_results
      else Ok (dict_append validated_results mapped_type
                 (mkStored (rstrip_s mapped_type) (nd_value new_det)
                           (nd_start new_det) (nd_end new_det) None true
                           (Some (nd_confidence new_det))
                           (Some (nd_reasoning new_det))))
  end.

Fixpoint add_discoveries (validated_results : Detections)
    (new_detections : list Discovery) : result Detections :=
  match new_detections with
  | [] => Ok validated_results
  | new_det :: rest =>
      match add_discovery validated_results new_det with
      | Ok validated_results' => add_discoveries validated_results' rest
      | Raise e => Raise e
      end
  end.

(** Steps 1 and 2: the candidates of the producers. *)
Definition produce (text : str) (settings : Settings) : Detections :=
  let names := detect_names text settings in
  let usernames := detect_usernames text settings in
  let name_positions : gset (Z * Z) :=
    list_to_set ((λ n, (start n, end_ n)) <$> names) in
  let names := foldl (add_username name_positions) names usernames in
  [ (py "emails", detect_emails text settings);
    (py "phones", detect_phones text settings);
    (py "names", names);
    (py "addresses", detect_addresses text settings);
    (py "ssn", detect_ssn text settings);
    (py "credit_cards", detect_credit_cards text settings) ].

Definition detect_all (text : str) (settings : Settings)
  : M World (Detections * str) :=
  let results := produce text settings in
  validated_results ← for_each (validate_category text) results [];
  new_detections ← discover_pii text validated_results;
  results ← lift (add_discoveries validated_results new_detections);
  explanation ← explain_redaction text results;
  mret (results, explanation).

(** ** The text endpoint of [main.py] *)

Record Response : Type := mkResponse {
  original : str;
  redacted : str;
  statistics : list (str * Z);
  detections : Detections;
  explanation : str
}.

Inductive Reply : Type :=
  | Reply200 (body : Response)
  | HTTPException (status_code : Z).

(** The three [except] clauses of the endpoint. *)
Definition http_error (e : exn) : Reply :=
  match e with
  | ValueError => HTTPException 400
  | RuntimeError _ => HTTPException 503
  | _ => HTTPException 500
  end.

Definition count_of (detection_results : Detections) (key : string) : str * Z :=
  (py key, Z.of_nat (length (dict_get detection_results (py key) []))).

Definition redact_text_endpoint (text : str) (settings : Settings)
  : World → Reply * World :=
  λ w,
    match detect_all text settings w with
    | (Raise e, w') => (http_error e, w')
    | (Ok (detection_results, explanation), w') =>
        match redact_text text detection_results settings with
        | Raise e => (http_error e, w')
        | Ok redacted_text =>
            let stats :=
              count_of detection_results
                <$> ["emails"; "phones"; "names"; "addresses"; "ssn";
                     "credit_cards"]%string in
            (Reply200 (mkResponse text redacted_text stats detection_results
                                  explanation), w')
        end
    end.

End Engine.

(** ** A detector for the examples *)

Module Demo.

(** [str.lower] and [\d] on ASCII text. *)
Definition ascii_lower (s : str) : str :=
  (λ c, if (65 <=? c) && (c <=? 90) then c + 32 else c)%N <$> s.

Definition ascii_digit (c : char) : bool := ((48 <=? c) && (c <=? 57))%N.

(** A JSON string literal. *)
Definition quoted (s : string) : str := [34%N] ++ py s ++ [34%N].

(** [{"is_pii": true, "reasoning": "ok"}] *)
Definition accept_answer : str :=
  py "{" ++ quoted "is_pii" ++ py ": true, " ++ quoted "reasoning" ++ py ": "
  ++ quoted "ok" ++ py "}".

(** [{"new_detections": []}] *)
Definition nothing_found : str :=
  py "{" ++ quoted "new_detections" ++ py ": []}".

(** [{"new_detections": [{"type": "email", "value": "bob@x.io",
    "start": 5, "end": 13}]}] *)
Definition email_found : str :=
  py "{" ++ quoted "new_detections" ++ py ": [{" ++ quoted "type" ++ py ": "
  ++ quoted "email" ++ py ", " ++ quoted "value" ++ py ": " ++ quoted "bob@x.io"
  ++ py ", " ++ quoted "start" ++ py ": 5, " ++ quoted "end" ++ py ": 13}]}".

(** The JSON reader on the answers of the examples; any other text is
    refused, as [json.loads] refuses a text that is not JSON. *)
Definition json_table : list (str * pyval) :=
  [ (accept_answer,
     VDict [(py "is_pii", VBool true); (py "reasoning", VStr (py "ok"))]);
    (nothing_found, VDict [(py "new_detections", VList [])]);
    (email_found,
     VDict [(py "new_detections",
             VList [VDict [(py "type", VStr (py "email"));
                           (py "value", VStr (py "bob@x.io"));
                           (py "start", VInt 5);
                           (py "end", VInt 13)]])]) ].

Definition library : Library :=
  {| json_loads := λ s, dict_get ((λ kv, (kv.1, Some kv.2)) <$> json_table) s None;
     lower := ascii_lower;
     isdigit := ascii_digit;
     repr_container := λ _, [] |}.

(** A detector whose patterns find the given e-mail matches and entities
    and nothing else, and whose model gives one fixed answer to each kind
    of prompt; the world counts the calls made to the model. *)
Definition detector (emails : list Match) (entities : list Entity)
    (validation discovery summary : str) : PIIDetector nat :=
  {| email_pattern := λ _, emails;
     phone_patterns := [λ _, []; λ _, []; λ _, []; λ _, []];
     ssn_pattern := λ _, [];
     credit_card_pattern := λ _, [];
     address_patterns := [λ _, []; λ _, []];
     username_pattern := λ _, [];
     nlp := Some (λ _, entities);
     generate_content := λ prompt calls,
       (inr match prompt with
            | ValidatePrompt _ _ _ => validation
            | DiscoverPrompt _ _ => discovery
            | ExplainPrompt _ => summary
            end, S calls) |}.

End Demo.

(** ** Vocabulary of the properties *)

(** Two spans share no character position. *)
Definition disjoint (a b : Labelled) : Prop :=
  end_ (det a) ≤ start (det b) ∨ end_ (det b) ≤ start (det a).

(** The order and the separation of the spans of a plan: a later span
    starts no later than an earlier one and does not overlap it. *)
Definition precedes (a b : Labelled) : Prop :=
  start (det b) ≤ start (det a) ∧ disjoint a b.

(** Position [p] of the text lies in the span. *)
Definition covers (d : Labelled) (p : Z) : Prop :=
  start (det d) ≤ p ∧ p < end_ (det d).

(** A span that passes the guard ends at or before [bound]. *)
Definition below (text : str) (bound : Z) (d : Labelled) : Prop :=
  in_range text d = true → end_ (det d) ≤ bound.

Definition has_str_label (d : Labelled) : bool :=
  match redaction_label d with
  | VStr _ => true
  | _ => false
  end.

(** The test of the span raises nothing: the span fails the guard, or its
    stored value is a string. *)
Definition well_valued (text : str) (d : Labelled) : bool :=
  match check text d with
  | Ok _ => true
  | Raise _ => false
  end.


Definition label_text (d : Labelled) : str :=
  match redaction_label d with
  | VStr l => l
  | _ => []
  end.

(** The text from [pos] on, each span of an ascending list replaced by its
    label: [text[pos:s1] + l1 + text[e1:s2] + l2 + ... + text[en:]]. *)
Fixpoint replace_spans (text : str) (pos : Z) (spans : list Labelled) : str :=
  match spans with
  | [] => slice_from text pos
  | d :: rest =>
      slice text pos (start (det d)) ++ label_text d
      ++ replace_spans text (end_ (det d)) rest
  end.

(** How far position [p] moves: each span that ends at or before [p] has
    put its label in the place of its characters. *)
Fixpoint shift (spans : list Labelled) (p : Z) : Z :=
  match spans with
  | [] => 0
  | d :: rest =>
      (if end_ (det d) <=? p then len (label_text d) - span_length d else 0)
      + shift rest p
  end.

(** Spans that are not empty and follow one another from [pos] on. *)
Fixpoint asc_chain (pos : Z) (asc : list Labelled) : Prop :=
  match asc with
  | [] => True
  | d :: rest =>
      pos ≤ start (det d) ∧ start (det d) < end_ (det d)
      ∧ asc_chain (end_ (det d)) rest
  end.

(** The rewriter as section 4.6 of the specification words it: the
    substring is read again from the working copy, not from the original
    text. *)
Definition rewrite_step_rereading (text redacted_text : str) (d : Labelled)
  : result str :=
  if in_range text d then
    match value_matches (slice redacted_text (start (det d)) (end_ (det d)))
                        (stored_value (det d)) with
    | Ok true =>
        splice_label (slice_to redacted_text (start (det d)))
                     (redaction_label d)
                     (slice_from redacted_text (end_ (det d)))
    | Ok false => Ok redacted_text
    | Raise e => Raise e
    end
  else Ok redacted_text.

Fixpoint rewrite_loop_rereading (text : str) (plan : list Labelled)
    (redacted_text : str) : result str :=
  match plan with
  | [] => Ok redacted_text
  | d :: plan' =>
      match rewrite_step_rereading text redacted_text d with
      | Ok redacted_text' => rewrite_loop_rereading text plan' redacted_text'
      | Raise e => Raise e
      end
  end.

Definition redact_text_rereading (text : str) (detections : Detections)
    (settings : Settings) : result str :=
  match all_detections settings detections with
  | [] => Ok text
  | _ :: _ =>
      if forallb offsets_are_ints (all_detections settings detections)
      then rewrite_loop_rereading text (redaction_plan settings detections) text
      else Raise TypeError
  end.

(** The style under which [get_redaction_label] numbers its labels: any
    style but the two it names. *)
Definition indexed_style (settings : Settings) : bool :=
  let style := settings_get settings (py "redaction_style") (VStr (py "labels")) in
  negb (eq_str style (py "black_boxes")) && negb (eq_str style (py "custom")).

(** ** Example inputs *)

Definition sample_text : str := py "Call 555-123-4567 or mail bob@x.io today".

Definition sample_phone : Item := detection (py "phone") (py "555-123-4567") 5 17.
Definition sample_email : Item := detection (py "email") (py "bob@x.io") 26 34.

Definition sample_detections : Detections :=
  [ (py "emails", [sample_email]); (py "phones", [sample_phone]) ].

(** The phone span carries a value that is not in the text. *)
Definition stale_phone : Item := detection (py "phone") (py "999-999-9999") 5 17.

Definition stale_detections : Detections :=
  [ (py "emails", [sample_email]); (py "phones", [stale_phone]) ].

(** A phone span as the oracle can report it: the offsets are right, the
    value is [null]. *)
Definition valueless_phone : Item :=
  mkStored (py "phone") VNone (VInt 5) (VInt 17) None true
           (Some (VStr (py "medium"))) (Some (VStr [])).

Definition valueless_detections : Detections :=
  [ (py "emails", [sample_email]); (py "phones", [valueless_phone]) ].

(** Three name spans in a row, each overlapping the next: [0,10), [8,14)
    and [13,16). *)
Definition chain_long : Item := detection (py "name") (py "Anna Maria") 0 10.
Definition chain_middle : Item := detection (py "name") (py "ia Bel") 8 14.
Definition chain_short : Item := detection (py "name") (py "l J") 13 16.

Definition chain_detections : Detections :=
  [ (py "names", [chain_long; chain_middle; chain_short]) ].

(** An address that begins with a run of sixteen digits, which the card
    producer reports too. *)
Definition nested_address : Item :=
  detection (py "address") (py "1234 5678 9012 3456 Elm St, Troy, NY") 0 36.
Definition nested_card : Item :=
  detection (py "credit_card") (py "1234 5678 9012 3456") 0 19.

Definition nested_detections : Detections :=
  [ (py "addresses", [nested_address]); (py "credit_cards", [nested_card]) ].

(** Two identity numbers, listed with the later one first. *)
Definition ssn_text : str :=
  py "Ann's SSN 123-45-6789 and the SSN of her husband, 987-65-4321, are on file".

Definition ssn_first : Item := detection (py "ssn") (py "123-45-6789") 10 21.
Definition ssn_second : Item := detection (py "ssn") (py "987-65-4321") 50 61.

Definition ssn_detections : Detections := [ (py "ssn", [ssn_second; ssn_first]) ].

(** The text of the merge example and its two person entities. *)
Definition emily_text : str := py "Contact Emily Johnson at emily.j@example.com".

Definition emily_entities : list Entity :=
  [ mkEntity (py "PERSON") (py "Emily") 8 13;
    mkEntity (py "PERSON") (py "Johnson") 14 21 ].

(** A short text with one e-mail address, and what the e-mail pattern
    finds in it. *)
Definition mail_text : str := py "Mail bob@x.io now".

Definition mail_match : Match := mkMatch (py "bob@x.io") 5 13.


(** The oracle proposes the e-mail address in its discovery answer. *)
Definition discovering_detector : PIIDetector nat :=
  Demo.detector [mail_match] [] Demo.accept_answer Demo.email_found
                (py "One e-mail address was found.").

(** The oracle answers a validation in prose, not in JSON. *)
Definition prose_answer : str := py "That is false, the address is only an example.".

Definition prose_detector : PIIDetector nat :=
  Demo.detector [mail_match] [] prose_answer Demo.nothing_found
                (py "Nothing was found.").

Definition custom_style : Settings := {[ py "redaction_style" := VStr (py "custom") ]}.

(** [{"new_detections": [{"type": "email", "value": "bob@x.io",
    "start": "5", "end": "13"}]}]: the oracle gives the offsets as
    strings. *)
Definition quoted_offsets_found : str :=
  py "{" ++ Demo.quoted "new_detections" ++ py ": [{" ++ Demo.quoted "type"
  ++ py ": " ++ Demo.quoted "email" ++ py ", " ++ Demo.quoted "value" ++ py ": "
  ++ Demo.quoted "bob@x.io" ++ py ", " ++ Demo.quoted "start" ++ py ": "
  ++ Demo.quoted "5" ++ py ", " ++ Demo.quoted "end" ++ py ": "
  ++ Demo.quoted "13" ++ py "}]}".

Definition quoted_offsets_library : Library :=
  {| json_loads := λ s,
       if bool_decide (s = quoted_offsets_found)
       then Some (VDict [(py "new_detections",
                          VList [VDict [(py "type", VStr (py "email"));
                                        (py "value", VStr (py "bob@x.io"));
                                        (py "start", VStr (py "5"));
                                        (py "end", VStr (py "13"))]])])
       else json_loads Demo.library s;
     lower := Demo.ascii_lower;
     isdigit := Demo.ascii_digit;
     repr_container := λ _, [] |}.

Definition quoted_offsets_detector : PIIDetector nat :=
  Demo.detector [mail_match] [] Demo.accept_answer quoted_offsets_found
                (py "One e-mail address was found.").

Definition emails_disabled : Settings := {[ py "redact_emails" := VBool false ]}.

(** ** Vocabulary of the label and merge properties *)

(** The display name [get_redaction_label] looks up for a key. *)
Definition display_name (pii_type : str) : str :=
  dict_get type_labels pii_type (py "REDACTED").

(** ["[NAME_n]"] *)
Definition indexed_label (pii_type : str) (n : Z) : pyval :=
  VStr (py "[" ++ display_name pii_type ++ py "_" ++ str_of_int n ++ py "]").

(** The spans listed under one key, each with the label of its rank in the
    list. *)
Definition numbered (settings : Settings) (entry : str * list Item) : list Labelled :=
  if category_enabled settings entry.1
  then imap (λ i item, mkLabelled item (indexed_label entry.1 (Z.of_nat i + 1))) entry.2
  else [].

(** Fragments each of which starts within 5 characters of the end of the
    one before; [current_end] is the end of the span before the first. *)
Fixpoint close_chain (current_end : Z) (fragments : list Item) : Prop :=
  match fragments with
  | [] => True
  | f :: rest => start f - current_end ≤ 5 ∧ close_chain (end_ f) rest
  end.

(** The end of the last fragment, or of [first] when there is none. *)
Definition last_end (first : Item) (fragments : list Item) : Z :=
  end_ (default first (last fragments)).

(** The detector of the merge example: the recognizer reports the two
    fragments of the name. *)
Definition emily_detector : PIIDetector nat :=
  Demo.detector [mkMatch (py "emily.j@example.com") 25 44] emily_entities
                Demo.accept_answer Demo.nothing_found (py "A name and an e-mail.").

(** ** Vocabulary of the further properties *)

(** What the labels of the spans add to the length of the text. *)
Definition length_change (spans : list Labelled) : Z :=
  foldr (λ d acc, len (label_text d) - span_length d + acc) 0 spans.

(** The style is the custom one and the settings hold a custom label that
    is not a string. *)
Definition bad_custom_label (settings : Settings) : Prop :=
  eq_str (settings_get settings (py "redaction_style") (VStr (py "labels")))
         (py "custom") = true
  ∧ ∃ v, settings !! py "custom_label" = Some v ∧ ∀ s, v ≠ VStr s.

(** The two loops of the merger as one recursion on the spans that follow
    the accumulator. *)
Fixpoint merge_from (current : Item) (rest : list Item) : list Item :=
  match rest with
  | [] => [current]
  | next_name :: rest' =>
      if start next_name - end_ current <=? 5
      then merge_from (absorb current next_name) rest'
      else current :: merge_from next_name rest'
  end.

(** Consecutive spans are more than 5 characters apart. *)
Definition far_apart (l : list Item) : Prop :=
  ∀ i a b, l !! i = Some a → l !! S i = Some b → 5 < start b - end_ a.

(** The model fails at every call. *)
Definition model_down {World : Type} (self : PIIDetector World) : Prop :=
  ∀ prompt w, ∃ error_msg w', generate_content self prompt w = (inl error_msg, w').

(** A detector like [agreeing_detector] whose model is out of reach. *)
Definition unreachable_detector : PIIDetector nat :=
  {| email_pattern := λ _, [mail_match];
     phone_patterns := [];
     ssn_pattern := λ _, [];
     credit_card_pattern := λ _, [];
     address_patterns := [];
     username_pattern := λ _, [];
     nlp := None;
     generate_content := λ _ calls, (inl (py "connection refused"), S calls) |}.

(** ** The PDF side: [PDFProcessor.extract_text] and the PDF endpoint *)





(** A computation that gives a value or fails with a [RuntimeError]. *)
Definition runtime_only {World A : Type} (m : M World A) : Prop :=
  ∀ w, (∃ a w', m w = (Ok a, w'))
       ∨ (∃ why w', m w = (Raise (RuntimeError why), w')).

(** The six keys of the detections map, in the order [detect_all] builds
    it. *)
Definition category_keys : list str :=
  [ py "emails"; py "phones"; py "names"; py "addresses"; py "ssn";
    py "credit_cards" ].

(** No span the oracle has discovered repeats the offsets of a span listed
    before it. *)
Definition discoveries_are_new (items : list Item) : Prop :=
  ∀ i j a b, (i < j)%nat → items !! i = Some a → items !! j = Some b →
             gemini_discovered b = true →
             ¬ (py_eq (stored_start a) (stored_start b) = true
                ∧ py_eq (stored_end a) (stored_end b) = true).

(** The clusters in which the name pool is validated. *)
Definition name_groups_of (pool : list Item) : list (list Item) :=
  foldl group_step [] (stable_sort start_le pool).

(** The span that stands for a cluster of two fragments or more. *)
Definition merged_group (first : Item) (others : list Item) : Item :=
  detection (py "name") (join (py " ") (value <$> first :: others))
            (minimum (start first) (start <$> others))
            (maximum (end_ first) (end_ <$> others)).

(** A login name right before a person name; the oracle answers every
    validation in prose that says "false". *)
Definition login_text : str := py "login: ejohn Emily Johnson wrote".

Definition login_detector : PIIDetector nat :=
  {| email_pattern := λ _, [];
     phone_patterns := [];
     ssn_pattern := λ _, [];
     credit_card_pattern := λ _, [];
     address_patterns := [];
     username_pattern := λ _,
       [mkUMatch (mkMatch (py "login: ejohn") 0 12) (mkMatch (py "ejohn") 7 12)];
     nlp := Some (λ _, [mkEntity (py "PERSON") (py "Emily Johnson") 13 26]);
     generate_content := λ prompt calls,
       (inr match prompt with
            | ValidatePrompt _ _ _ => prose_answer
            | DiscoverPrompt _ _ => Demo.nothing_found
            | ExplainPrompt _ => py "A name was found."
            end, S calls) |}.

(** An answer whose JSON body stands in a code fence tagged [json], with
    prose before and after. *)
Definition fenced (prose body tail : str) : str :=
  prose ++ py "```json" ++ body ++ py "```" ++ tail.

(** The text holds no backquote. *)
Definition no_backquote (s : str) : Prop := Forall (λ c, c ≠ 96%N) s.

(** ** Construction: [GeminiValidator.__init__] and [PIIDetector.__init__] *)

(** A model of [genai.list_models()]. *)
Record ModelInfo : Type := mkModelInfo {
  model_name : str;
  supported_generation_methods : list str
}.

(** How a constructor ends: with the name of the model it has chosen, or
    with the exception it raises. *)
Inductive Construction : Type :=
  | Constructed (model : str)
  | RaisesValueError
  | RaisesImportError.

Definition experimental_markers : list str :=
  [ py "exp"; py "experimental"; py "2.5"; py "2.0"; py "3.0" ].

Definition fallback_names : list str :=
  [ py "gemini-pro"; py "gemini-1.5-flash"; py "gemini-1.5-pro" ].

(** [name.split('/')[-1]] *)
Definition short_name (name : str) : str :=
  default [] (last (split name (py "/"))).

(** [any(x in model_name.lower() for x in [...])] *)
Definition is_experimental (lib : Library) (name : str) : bool :=
  existsb (λ x, contains (lower lib name) x) experimental_markers.

(** The loop over the listed models; [instantiates name] tells whether
    [genai.GenerativeModel(name)] returns. *)
Fixpoint pick_listed (lib : Library) (instantiates : str → bool)
    (models : list ModelInfo) : option str :=
  match models with
  | [] => None
  | model :: rest =>
      if bool_decide (py "generateContent" ∈ supported_generation_methods model)
      then
        let name := short_name (model_name model) in
        if is_experimental lib name then pick_listed lib instantiates rest
        else if instantiates name then Some name
        else pick_listed lib instantiates rest
      else pick_listed lib instantiates rest
  end.

(** The loop over the fallback names. *)
Fixpoint pick_fallback (instantiates : str → bool) (names : list str) : option str :=
  match names with
  | [] => None
  | name :: rest =>
      if instantiates name then Some name else pick_fallback instantiates rest
  end.

(** [GeminiValidator.__init__]: [available] is [GEMINI_AVAILABLE],
    [listed] is [None] when [genai.list_models()] raises; [genai.configure]
    only records the key. *)
Definition gemini_validator_init (lib : Library) (available : bool)
    (listed : option (list ModelInfo)) (instantiates : str → bool)
    (api_key : str) : Construction :=
  if bool_decide (api_key = []) || bool_decide (strip api_key = [])
  then RaisesValueError
  else if negb available then RaisesImportError
  else
    match from_option (pick_listed lib instantiates) None listed with
    | Some model => Constructed model
    | None =>
        match pick_fallback instantiates fallback_names with
        | Some model => Constructed model
        | None => RaisesValueError
        end
    end.

(** [PIIDetector.__init__], [gemini_api_key] being [None] by default. *)
Definition pii_detector_init (lib : Library) (available : bool)
    (listed : option (list ModelInfo)) (instantiates : str → bool)
    (gemini_api_key : option str) : Construction :=
  match gemini_api_key with
  | None => RaisesValueError
  | Some api_key =>
      if bool_decide (api_key = []) then RaisesValueError
      else gemini_validator_init lib available listed instantiates api_key
  end.

(** A library that reads the JSON text [[]] and nothing else. *)
Definition list_library : Library :=
  {| json_loads := λ s, if bool_decide (s = py "[]") then Some (VList []) else None;
     lower := Demo.ascii_lower;
     isdigit := Demo.ascii_digit;
     repr_container := λ _, [] |}.

(** The oracle answers every prompt with the empty JSON list. *)
Definition list_detector : PIIDetector nat :=
  Demo.detector [mail_match] [] (py "[]") (py "[]") (py "[]").

(** What the listing gives in the examples: an experimental model first,
    then a stable one. *)
Definition listed_models : list ModelInfo :=
  [ mkModelInfo (py "models/gemini-2.0-flash-exp") [py "generateContent"];
    mkModelInfo (py "models/embedding-001") [py "embedContent"];
    mkModelInfo (py "models/gemini-1.5-flash-8b")
                [py "generateContent"; py "countTokens"] ].

(** The span holds a string as its value and integers as its offsets, as
    the spans the producers build do. *)
Definition is_typed (item : Item) : bool :=
  match stored_value item, stored_start item, stored_end item with
  | VStr _, VInt _, VInt _ => true
  | _, _, _ => false
  end.

(** * Properties *)

Section Sorting.
Context {A : Type} (le : A → A → bool).

Lemma insert_sorted_perm (x : A) (l : list A) : insert_sorted le x l ≡ₚ x :: l.
Proof.
  induction l as [|y l IH]; simpl; [done|].
  destruct (le x y); [done|]. rewrite IH. apply Permutation_swap.
Qed.

Lemma stable_sort_perm (l : list A) : stable_sort le l ≡ₚ l.
Proof.
  induction l as [|x l IH]; simpl; [done|].
  rewrite insert_sorted_perm. by f_equiv.
Qed.

Hypothesis le_total : ∀ x y, le x y = false → le y x = true.
Hypothesis le_trans : ∀ x y z, le x y = true → le y z = true → le x z = true.

Lemma insert_sorted_sorted (x : A) (l : list A) :
  StronglySorted (λ a b, le a b = true) l →
  StronglySorted (λ a b, le a b = true) (insert_sorted le x l).
Proof.
  induction 1 as [|y l Hl IH Hy]; simpl.
  - repeat constructor.
  - destruct (le x y) eqn:Hxy.
    + constructor; [by constructor|].
      constructor; [done|]. eapply Forall_impl; [exact Hy|]. eauto.
    + constructor; [done|].
      rewrite insert_sorted_perm. constructor; [auto| done].
Qed.

Lemma stable_sort_sorted (l : list A) :
  StronglySorted (λ a b, le a b = true) (stable_sort le l).
Proof.
  induction l; simpl; [constructor|]. by apply insert_sorted_sorted.
Qed.
End Sorting.

Lemma StronglySorted_perm {A} (R : A → A → Prop) (l l' : list A) :
  (∀ a b, R a b → R b a) → l ≡ₚ l' → StronglySorted R l → StronglySorted R l'.
Proof.
  intros Hsym Hp. induction Hp as [|x l l' Hp IH|x y l|l l' l'' _ IH1 _ IH2]; intros Hs.
  - done.
  - inversion_clear Hs. constructor; [auto|]. by rewrite <- Hp.
  - inversion_clear Hs as [|? ? Hs' Hy]. inversion_clear Hs' as [|? ? Hs'' Hx].
    inversion_clear Hy. repeat constructor; auto.
  - auto.
Qed.

Lemma StronglySorted_and {A} (R1 R2 : A → A → Prop) (l : list A) :
  StronglySorted R1 l → StronglySorted R2 l →
  StronglySorted (λ a b, R1 a b ∧ R2 a b) l.
Proof.
  induction 1 as [|x l H1 IH Hx]; intros H2; [constructor|].
  inversion_clear H2. constructor; [auto|].
  rewrite Forall_forall in *. naive_solver.
Qed.

Lemma StronglySorted_lookup {A} (R : A → A → Prop) (l : list A) i j a b :
  StronglySorted R l → (i < j)%nat → l !! i = Some a → l !! j = Some b → R a b.
Proof.
  intros Hs. revert i j. induction Hs as [|x l Hs IH Hx]; intros i j Hij Hi Hj; [done|].
  destruct i as [|i], j as [|j]; try lia; simpl in *.
  - simplify_eq. rewrite Forall_forall in Hx. apply Hx. by eapply list_elem_of_lookup_2.
  - eapply IH; [|done..]. lia.
Qed.

(** ** The overlap sweep *)

Lemma overlaps_false (a b : Labelled) : overlaps a b = false ↔ disjoint a b.
Proof. unfold overlaps, disjoint. rewrite negb_false_iff, orb_true_iff. lia. Qed.

Lemma overlaps_sym (a b : Labelled) : overlaps a b = overlaps b a.
Proof. unfold overlaps. f_equal. apply eq_true_iff_eq. rewrite !orb_true_iff. lia. Qed.

Lemma disjoint_sym (a b : Labelled) : disjoint a b → disjoint b a.
Proof. unfold disjoint. lia. Qed.

Lemma StronglySorted_snoc {A} (R : A → A → Prop) (l : list A) (x : A) :
  StronglySorted R l → Forall (λ a, R a x) l → StronglySorted R (l ++ [x]).
Proof.
  induction 1 as [|y l Hl IH Hy]; intros Hx; simpl.
  - repeat constructor.
  - inversion_clear Hx. constructor; [auto|].
    apply Forall_app. split; [done|]. by constructor.
Qed.

Lemma existsb_overlaps_false (d : Labelled) (l : list Labelled) :
  existsb (overlaps d) l = false ↔ Forall (λ k, disjoint k d) l.
Proof.
  induction l as [|k l IH]; simpl.
  - split; [constructor|done].
  - rewrite orb_false_iff, IH, Forall_cons, overlaps_false.
    split; intros [H1 H2]; (split; [by apply disjoint_sym|done]).
Qed.

Lemma keep_step_disjoint (acc all : list Labelled) :
  StronglySorted disjoint acc → StronglySorted disjoint (foldl keep_step acc all).
Proof.
  revert acc. induction all as [|d all IH]; intros acc Hacc; simpl; [done|].
  apply IH. unfold keep_step. destruct (existsb _ _) eqn:He; [done|].
  apply StronglySorted_snoc; [done|]. by apply existsb_overlaps_false.
Qed.

Lemma keep_step_subseteq (acc all : list Labelled) (d : Labelled) :
  d ∈ foldl keep_step acc all → d ∈ acc ∨ d ∈ all.
Proof.
  revert acc. induction all as [|x all IH]; intros acc; simpl; [auto|].
  intros [H|H]%IH; [|right; by right].
  unfold keep_step in H. destruct (existsb _ _); [auto|].
  apply elem_of_app in H as [H|H]; [auto|].
  apply list_elem_of_singleton in H as ->. right; left.
Qed.

Lemma keep_step_keeps (acc all : list Labelled) (d : Labelled) :
  d ∈ acc → d ∈ foldl keep_step acc all.
Proof.
  revert acc. induction all as [|x all IH]; intros acc H; simpl; [done|].
  apply IH. unfold keep_step. destruct (existsb _ _); [done|].
  apply elem_of_app; auto.
Qed.

Lemma remove_overlaps_disjoint (all : list Labelled) :
  StronglySorted disjoint (remove_overlaps all).
Proof. apply keep_step_disjoint. constructor. Qed.

Lemma remove_overlaps_subseteq (all : list Labelled) (d : Labelled) :
  d ∈ remove_overlaps all → d ∈ all.
Proof. intros [H|H]%keep_step_subseteq; [by apply elem_of_nil in H|done]. Qed.

Lemma remove_overlaps_snoc (l : list Labelled) (d : Labelled) :
  remove_overlaps (l ++ [d]) =
    if existsb (overlaps d) (remove_overlaps l) then remove_overlaps l
    else remove_overlaps l ++ [d].
Proof. unfold remove_overlaps. by rewrite foldl_app. Qed.

(** A span is kept when the spans swept before it are copies of it or do
    not overlap it. *)
Lemma remove_overlaps_first (l1 l2 : list Labelled) (a : Labelled) :
  Forall (λ c, c = a ∨ overlaps a c = false) l1 →
  a ∈ remove_overlaps (l1 ++ a :: l2).
Proof.
  intros Hl1. unfold remove_overlaps. rewrite foldl_app. simpl.
  apply keep_step_keeps. unfold keep_step.
  destruct (existsb _ _) eqn:He.
  - apply existsb_exists in He as (c & Hc & Hov).
    apply list_elem_of_In in Hc. pose proof Hc as Hc'%remove_overlaps_subseteq.
    rewrite Forall_forall in Hl1. destruct (Hl1 c Hc') as [->|Hno]; [done|].
    congruence.
  - apply elem_of_app. right. left.
Qed.

Lemma plan_perm settings detections :
  redaction_plan settings detections ≡ₚ
    remove_overlaps (stable_sort size_key_le (all_detections settings detections)).
Proof. apply stable_sort_perm. Qed.

Lemma plan_disjoint settings detections :
  StronglySorted disjoint (redaction_plan settings detections).
Proof.
  eapply StronglySorted_perm; [apply disjoint_sym| symmetry; apply plan_perm |].
  apply remove_overlaps_disjoint.
Qed.

Lemma plan_subseteq settings detections (d : Labelled) :
  d ∈ redaction_plan settings detections → d ∈ all_detections settings detections.
Proof.
  rewrite plan_perm. intros H%remove_overlaps_subseteq.
  by rewrite stable_sort_perm in H.
Qed.

Lemma size_key_le_total (x y : Labelled) :
  size_key_le x y = false → size_key_le y x = true.
Proof.
  unfold size_key_le. rewrite orb_false_iff, orb_true_iff, andb_false_iff, andb_true_iff.
  lia.
Qed.

Lemma size_key_le_trans (x y z : Labelled) :
  size_key_le x y = true → size_key_le y z = true → size_key_le x z = true.
Proof.
  unfold size_key_le. rewrite !orb_true_iff, !andb_true_iff. lia.
Qed.

Lemma size_key_le_spec (a b : Labelled) :
  size_key_le a b = true ↔
    span_length b < span_length a
    ∨ (span_length a = span_length b ∧ start (det a) ≤ start (det b)).
Proof. unfold size_key_le. rewrite orb_true_iff, andb_true_iff. lia. Qed.

Lemma start_desc_le_total (x y : Labelled) :
  start_desc_le x y = false → start_desc_le y x = true.
Proof. unfold start_desc_le. lia. Qed.

Lemma start_desc_le_trans (x y z : Labelled) :
  start_desc_le x y = true → start_desc_le y z = true → start_desc_le x z = true.
Proof. unfold start_desc_le. lia. Qed.

Lemma plan_pairwise settings detections (i j : nat) (a b : Labelled) :
  i ≠ j →
  redaction_plan settings detections !! i = Some a →
  redaction_plan settings detections !! j = Some b →
  disjoint a b.
Proof.
  intros Hij Hi Hj. pose proof (plan_disjoint settings detections) as Hs.
  destruct (decide (i < j)%nat).
  - eapply StronglySorted_lookup; eauto.
  - apply disjoint_sym. eapply StronglySorted_lookup; [exact Hs| |exact Hj|exact Hi]. lia.
Qed.

(** ** Slices *)

Lemma slice_to_nonneg (s : str) (b : Z) : 0 ≤ b → slice_to s b = take (Z.to_nat b) s.
Proof.
  intros Hb. unfold slice_to, clamp, len.
  destruct (b <? 0) eqn:E; [lia|].
  destruct (decide (b ≤ Z.of_nat (length s))).
  - by rewrite Z.min_l.
  - rewrite Z.min_r, Nat2Z.id by lia. rewrite !take_ge; [done|lia|lia].
Qed.

Lemma slice_from_nonneg (s : str) (a : Z) : 0 ≤ a → slice_from s a = drop (Z.to_nat a) s.
Proof.
  intros Ha. unfold slice_from, clamp, len.
  destruct (a <? 0) eqn:E; [lia|].
  destruct (decide (a ≤ Z.of_nat (length s))).
  - by rewrite Z.min_l.
  - rewrite Z.min_r, Nat2Z.id by lia. rewrite !drop_ge; [done|lia|lia].
Qed.

Lemma slice_nonneg (s : str) (a b : Z) :
  0 ≤ a → 0 ≤ b →
  slice s a b = take (Z.to_nat b - Z.to_nat a) (drop (Z.to_nat a) s).
Proof.
  intros Ha Hb. unfold slice, clamp, len.
  destruct (a <? 0) eqn:Ea; [lia|]. destruct (b <? 0) eqn:Eb; [lia|].
  destruct (decide (a ≤ Z.of_nat (length s))).
  - rewrite (Z.min_l a) by done.
    destruct (decide (b ≤ Z.of_nat (length s))).
    + by rewrite Z.min_l.
    + rewrite Z.min_r, Nat2Z.id by lia.
      rewrite !take_ge; [done|rewrite length_drop; lia..].
  - rewrite (Z.min_r a), Nat2Z.id by lia.
    rewrite !drop_ge by lia. by rewrite !take_nil.
Qed.

(** Slices inside a common prefix do not see what follows it. *)
Lemma slice_prefix (text tail : str) (bound a b : Z) :
  0 ≤ a → 0 ≤ b → b ≤ bound → bound ≤ len text →
  slice (take (Z.to_nat bound) text ++ tail) a b = slice text a b.
Proof.
  unfold len. intros Ha Hb Hbound Hlen. rewrite !slice_nonneg by done.
  destruct (decide (b ≤ a)).
  { replace (Z.to_nat b - Z.to_nat a)%nat with 0%nat by lia. done. }
  rewrite !take_drop_commute.
  replace (Z.to_nat a + (Z.to_nat b - Z.to_nat a))%nat with (Z.to_nat b) by lia.
  f_equal.
  rewrite take_app_le by (rewrite length_take; lia).
  rewrite take_take. f_equal. lia.
Qed.

Lemma take_prefix (text tail : str) (bound s : Z) :
  0 ≤ s → s ≤ bound → bound ≤ len text →
  take (Z.to_nat s) (take (Z.to_nat bound) text ++ tail) = take (Z.to_nat s) text.
Proof.
  unfold len. intros Hs Hb Hlen.
  rewrite take_app_le by (rewrite length_take; lia).
  rewrite take_take. f_equal. lia.
Qed.

Lemma drop_prefix (text tail : str) (bound e : Z) :
  0 ≤ e → e ≤ bound → bound ≤ len text →
  drop (Z.to_nat e) (take (Z.to_nat bound) text ++ tail)
  = drop (Z.to_nat e) (take (Z.to_nat bound) text) ++ tail.
Proof.
  unfold len. intros He Hb Hlen.
  rewrite drop_app_le by (rewrite length_take; lia). done.
Qed.

(** The replacement up to a last span [d] only reads the text before it. *)
Lemma replace_spans_snoc (T : str) (pos : Z) (asc : list Labelled) (d : Labelled) :
  0 ≤ pos → 0 ≤ start (det d) → 0 ≤ end_ (det d) →
  Forall (λ a, 0 ≤ start (det a) ≤ start (det d) ∧ 0 ≤ end_ (det a)) asc →
  replace_spans T pos (asc ++ [d]) =
    replace_spans (take (Z.to_nat (start (det d))) T) pos asc
    ++ label_text d ++ drop (Z.to_nat (end_ (det d))) T.
Proof.
  intros Hpos Hs He Hasc. revert pos Hpos.
  induction Hasc as [|a asc [Ha1 Ha2] _ IH]; intros pos Hpos; simpl.
  - rewrite !slice_from_nonneg, slice_nonneg by done.
    rewrite take_drop_commute. f_equal.
    destruct (decide (pos ≤ start (det d))).
    + do 2 f_equal. lia.
    + rewrite !drop_ge; [done|rewrite length_take; lia..].
  - rewrite IH by lia. rewrite <- !app_assoc. f_equal.
    rewrite !slice_nonneg by lia.
    rewrite !take_drop_commute.
    destruct (decide (pos ≤ start (det a))).
    + f_equal. rewrite take_take. f_equal. lia.
    + rewrite !drop_ge; [done|rewrite !length_take; lia..].
Qed.

(** ** The rewriting loop *)

Lemma in_range_spec (text : str) (d : Labelled) :
  in_range text d = true ↔
    0 ≤ start (det d) ∧ start (det d) < end_ (det d) ∧ end_ (det d) ≤ len text.
Proof. unfold in_range. rewrite !andb_true_iff. lia. Qed.

Lemma applies_in_range (text : str) (d : Labelled) :
  applies text d = true → in_range text d = true.
Proof. unfold applies, check. by destruct (in_range text d). Qed.

Lemma applies_check (text : str) (d : Labelled) :
  applies text d = true ↔ check text d = Ok true.
Proof.
  unfold applies. destruct (check text d) as [b|e]; [|done].
  split; [by intros ->|by intros [= ->]].
Qed.

Lemma check_false_applies (text : str) (d : Labelled) :
  check text d = Ok false → applies text d = false.
Proof. unfold applies. by intros ->. Qed.

Lemma check_raises (text : str) (d : Labelled) (e : exn) :
  check text d = Raise e → e = TypeError.
Proof.
  unfold check, value_matches. destruct (in_range text d); [|done].
  destruct (stored_value (det d)); by intros [= <-].
Qed.

Lemma well_valued_spec (text : str) (d : Labelled) :
  well_valued text d = negb (in_range text d) || is_str (stored_value (det d)).
Proof.
  unfold well_valued, check, value_matches. destruct (in_range text d); [|done].
  by destruct (stored_value (det d)).
Qed.

Lemma below_after (text : str) (d : Labelled) (plan : list Labelled) :
  in_range text d = true → Forall (precedes d) plan →
  Forall (below text (start (det d))) plan.
Proof.
  intros Hd%in_range_spec Hp. eapply Forall_impl; [exact Hp|].
  intros d' [Hs Hdis] Hd'%in_range_spec. unfold disjoint in Hdis. lia.
Qed.

Lemma rewrite_loop_spec (text : str) (plan : list Labelled) :
  StronglySorted precedes plan →
  ∀ (bound : Z) (tail : str),
    0 ≤ bound → bound ≤ len text → Forall (below text bound) plan →
    rewrite_loop text plan (take (Z.to_nat bound) text ++ tail) =
      if forallb (well_valued text) plan
         && forallb has_str_label (filter (λ d, applies text d = true) plan)
      then Ok (replace_spans (take (Z.to_nat bound) text) 0
                 (reverse (filter (λ d, applies text d = true) plan)) ++ tail)
      else Raise TypeError.
Proof.
  induction 1 as [|d plan Hs IH Hd]; intros bound tail Hb0 Hb Hbelow.
  - simpl. by rewrite slice_from_nonneg.
  - inversion_clear Hbelow as [|? ? Hdb Hrest].
    cbn [rewrite_loop forallb]. unfold rewrite_step, well_valued at 1.
    rewrite filter_cons.
    destruct (check text d) as [[|]|e] eqn:Hchk.
    + apply applies_check in Hchk as Happ.
      rewrite decide_True by done.
      pose proof (applies_in_range _ _ Happ) as Hin.
      specialize (Hdb Hin). apply in_range_spec in Hin as (Hs0 & Hse & Hel).
      cbn [forallb andb]. unfold has_str_label at 1, splice_label.
      destruct (redaction_label d) as [| | |lab| |] eqn:Hlab;
        try by rewrite andb_false_r.
      rewrite slice_to_nonneg, slice_from_nonneg by lia.
      rewrite take_prefix, drop_prefix by lia.
      rewrite IH; [|lia|lia|].
      * cbn [andb]. destruct (_ && _); [|done]. f_equal.
        rewrite reverse_cons, replace_spans_snoc; try lia.
        -- rewrite take_take, <- !app_assoc.
           unfold label_text. rewrite Hlab.
           do 2 f_equal. f_equal. lia.
        -- apply Forall_reverse, Forall_forall. intros a [Ha Hin]%list_elem_of_filter.
           apply applies_in_range, in_range_spec in Ha.
           rewrite Forall_forall in Hd. destruct (Hd a Hin) as [? _]. lia.
      * apply below_after; [|done]. apply in_range_spec. lia.
    + rewrite decide_False by (rewrite (check_false_applies _ _ Hchk); done).
      cbn [andb]. by apply IH.
    + by rewrite (check_raises _ _ _ Hchk).
Qed.

Lemma shift_before (pos p : Z) (asc : list Labelled) :
  asc_chain pos asc → p < pos → shift asc p = 0.
Proof.
  revert pos. induction asc as [|d rest IH]; intros pos Hc Hp; simpl in *; [done|].
  destruct Hc as (H1 & H2 & H3). rewrite (IH _ H3) by lia.
  destruct (Z.leb_spec (end_ (det d)) p); lia.
Qed.

Lemma shift_lower (pos p : Z) (asc : list Labelled) :
  asc_chain pos asc → pos ≤ p → 0 ≤ p - pos + shift asc p.
Proof.
  revert pos. induction asc as [|d rest IH]; intros pos Hc Hp; simpl in *; [lia|].
  destruct Hc as (H1 & H2 & H3). unfold span_length, len.
  destruct (Z.leb_spec (end_ (det d)) p).
  - specialize (IH _ H3 ltac:(lia)). lia.
  - rewrite (shift_before _ _ _ H3) by lia. lia.
Qed.

Lemma replace_spans_lookup (text : str) (asc : list Labelled) (pos p : Z) :
  asc_chain pos asc → Forall (λ d, end_ (det d) ≤ len text) asc →
  0 ≤ pos → pos ≤ p → Forall (λ d, ¬ covers d p) asc →
  replace_spans text pos asc !! Z.to_nat (p - pos + shift asc p)
  = text !! Z.to_nat p.
Proof.
  revert pos. induction asc as [|d rest IH]; intros pos Hc Hlen Hpos Hp Hout; simpl in *.
  - rewrite slice_from_nonneg, lookup_drop by done. f_equal. lia.
  - destruct Hc as (H1 & H2 & H3).
    inversion_clear Hlen as [|? ? Hd Hrest]. inversion_clear Hout as [|? ? Hnc Hout'].
    unfold covers in Hnc. unfold len in Hd.
    assert (length (slice text pos (start (det d))) = Z.to_nat (start (det d) - pos)) as Hl.
    { rewrite slice_nonneg, length_take, length_drop by lia. lia. }
    destruct (Z.leb_spec (end_ (det d)) p).
    + pose proof (shift_lower _ p _ H3 ltac:(lia)) as Hlow.
      rewrite lookup_app_r by (rewrite Hl; unfold span_length, len; lia).
      rewrite lookup_app_r by (rewrite Hl; unfold span_length, len; lia).
      rewrite <- (IH (end_ (det d))); [|done|done|lia|lia|done].
      f_equal. rewrite Hl. unfold span_length, len. lia.
    + rewrite (shift_before _ _ _ H3) by lia.
      rewrite lookup_app_l by (rewrite Hl; lia).
      rewrite slice_nonneg by lia.
      rewrite lookup_take_lt by lia. rewrite lookup_drop. f_equal. lia.
Qed.

Lemma StronglySorted_reverse {A} (R : A → A → Prop) (l : list A) :
  StronglySorted R l → StronglySorted (flip R) (reverse l).
Proof.
  induction 1 as [|x l Hs IH Hx]; [constructor|].
  rewrite reverse_cons. apply StronglySorted_snoc; [done|].
  by apply Forall_reverse.
Qed.

Lemma StronglySorted_filter {A} (R : A → A → Prop) (P : A → Prop)
    `{∀ x, Decision (P x)} (l : list A) :
  StronglySorted R l → StronglySorted R (filter P l).
Proof.
  induction 1 as [|x l Hs IH Hx]; [constructor|].
  rewrite filter_cons. destruct (decide (P x)); [|done].
  constructor; [done|]. rewrite Forall_forall in *.
  intros y [_ Hy]%list_elem_of_filter. auto.
Qed.

Lemma StronglySorted_mono {A} (R1 R2 : A → A → Prop) (l : list A) :
  (∀ a b, R1 a b → R2 a b) → StronglySorted R1 l → StronglySorted R2 l.
Proof.
  intros HR. induction 1 as [|x l Hs IH Hx]; constructor; [done|].
  eapply Forall_impl; [exact Hx|]. auto.
Qed.

Lemma asc_chain_sorted (pos : Z) (asc : list Labelled) :
  StronglySorted (λ a b, end_ (det a) ≤ start (det b)) asc →
  Forall (λ d, pos ≤ start (det d) ∧ start (det d) < end_ (det d)) asc →
  asc_chain pos asc.
Proof.
  intros Hs. revert pos. induction Hs as [|d rest Hs IH Hd]; intros pos Hall; simpl; [done|].
  inversion_clear Hall as [|? ? [H1 H2] Hrest]. repeat split; [done..|].
  apply IH. rewrite Forall_forall in *. intros b Hb.
  specialize (Hd b Hb). specialize (Hrest b Hb). simpl in *. lia.
Qed.

Lemma plan_sorted settings detections :
  StronglySorted precedes (redaction_plan settings detections).
Proof.
  apply (StronglySorted_and (λ a b, start (det b) ≤ start (det a)) disjoint).
  - unfold redaction_plan.
    eapply StronglySorted_mono;
      [|apply (stable_sort_sorted start_desc_le);
        [apply start_desc_le_total|apply start_desc_le_trans]].
    intros a b. unfold start_desc_le. lia.
  - apply plan_disjoint.
Qed.

Lemma redact_text_loop (text : str) detections settings :
  redact_text text detections settings =
    if forallb offsets_are_ints (all_detections settings detections)
    then rewrite_loop text (redaction_plan settings detections) text
    else Raise TypeError.
Proof.
  unfold redact_text, redaction_plan.
  destruct (all_detections settings detections); done.
Qed.

Lemma StronglySorted_mono_in {A} (R1 R2 : A → A → Prop) (P : A → Prop) (l : list A) :
  (∀ a b, P a → P b → R1 a b → R2 a b) →
  Forall P l → StronglySorted R1 l → StronglySorted R2 l.
Proof.
  intros HR HP. induction 1 as [|x l Hs IH Hx]; [constructor|].
  inversion_clear HP as [|? ? Hpx Hpl]. constructor; [auto|].
  rewrite Forall_forall in *. auto.
Qed.

Lemma applied_chain (text : str) settings detections :
  asc_chain 0 (reverse (applied_spans text settings detections))
  ∧ Forall (λ d, end_ (det d) ≤ len text)
           (reverse (applied_spans text settings detections)).
Proof.
  assert (Forall (λ d, 0 ≤ start (det d) ∧ start (det d) < end_ (det d)
                       ∧ end_ (det d) ≤ len text)
                 (reverse (applied_spans text settings detections))) as Hall.
  { apply Forall_reverse, Forall_forall.
    intros d [Hd _]%list_elem_of_filter. by apply in_range_spec, applies_in_range. }
  split.
  - apply asc_chain_sorted; [|eapply Forall_impl; [exact Hall|]; simpl; lia].
    eapply StronglySorted_mono_in; [|exact Hall|].
    2: { apply StronglySorted_reverse, StronglySorted_filter, plan_sorted. }
    intros a b Ha Hb [Hs Hd]. unfold disjoint in Hd. simpl in *. lia.
  - eapply Forall_impl; [exact Hall|]. simpl. lia.
Qed.

Lemma redact_text_spec (text : str) detections settings :
  redact_text text detections settings =
    if forallb offsets_are_ints (all_detections settings detections)
       && forallb (well_valued text) (redaction_plan settings detections)
       && forallb has_str_label (applied_spans text settings detections)
    then Ok (replace_spans text 0 (reverse (applied_spans text settings detections)))
    else Raise TypeError.
Proof.
  rewrite redact_text_loop.
  destruct (forallb offsets_are_ints _); [|done]. cbn [andb].
  pose proof (rewrite_loop_spec text _ (plan_sorted settings detections)
                (len text) [] ltac:(unfold len; lia) ltac:(lia)) as H.
  unfold len in H at 2 3. rewrite Nat2Z.id, take_ge, !app_nil_r in H by lia.
  apply H. apply Forall_forall. intros d _ Hd%in_range_spec. lia.
Qed.

(** When [redact_text] returns, the sort and every test have raised
    nothing and every label spliced in was a string. *)
Lemma redact_text_ok (text r : str) detections settings :
  redact_text text detections settings = Ok r →
  forallb offsets_are_ints (all_detections settings detections) = true
  ∧ forallb (well_valued text) (redaction_plan settings detections) = true
  ∧ forallb has_str_label (applied_spans text settings detections) = true
  ∧ r = replace_spans text 0 (reverse (applied_spans text settings detections)).
Proof.
  rewrite redact_text_spec.
  destruct (forallb offsets_are_ints _); [|done].
  destruct (forallb (well_valued text) _); [|done].
  destruct (forallb has_str_label _); [|done].
  by intros [= <-].
Qed.

Lemma redact_text_lookup (text r : str) detections settings (p : Z) :
  redact_text text detections settings = Ok r →
  0 ≤ p →
  Forall (λ d, ¬ covers d p) (applied_spans text settings detections) →
  r !! Z.to_nat (p + shift (reverse (applied_spans text settings detections)) p)
  = text !! Z.to_nat p.
Proof.
  intros (_ & _ & _ & ->)%redact_text_ok Hp Hout.
  destruct (applied_chain text settings detections) as [Hc Hl].
  rewrite <- (replace_spans_lookup text _ 0 p Hc Hl); [|lia|lia|by apply Forall_reverse].
  f_equal. lia.
Qed.

Lemma rewrite_loop_rereading_eq (text : str) (plan : list Labelled) :
  StronglySorted precedes plan →
  ∀ (bound : Z) (tail : str),
    0 ≤ bound → bound ≤ len text → Forall (below text bound) plan →
    rewrite_loop_rereading text plan (take (Z.to_nat bound) text ++ tail)
    = rewrite_loop text plan (take (Z.to_nat bound) text ++ tail).
Proof.
  induction 1 as [|d plan Hs IH Hd]; intros bound tail Hb0 Hb Hbelow; [done|].
  inversion_clear Hbelow as [|? ? Hdb Hrest]. simpl.
  assert (rewrite_step_rereading text (take (Z.to_nat bound) text ++ tail) d
          = rewrite_step text (take (Z.to_nat bound) text ++ tail) d) as ->.
  { unfold rewrite_step_rereading, rewrite_step, check.
    destruct (in_range text d) eqn:Hin; [|done].
    specialize (Hdb Hin). apply in_range_spec in Hin.
    rewrite slice_prefix by lia. done. }
  unfold rewrite_step. destruct (check text d) as [[|]|e] eqn:Hchk; [| |done].
  - apply applies_check in Hchk as Happ.
    pose proof (applies_in_range _ _ Happ) as Hin.
    specialize (Hdb Hin). pose proof Hin as (Hs0 & Hse & Hel)%in_range_spec.
    unfold splice_label. destruct (redaction_label d); try done.
    rewrite slice_to_nonneg, slice_from_nonneg by lia.
    rewrite take_prefix by lia.
    apply IH; [lia|lia|]. by apply below_after.
  - by apply IH.
Qed.

Lemma redact_text_rereading_eq (text : str) detections settings :
  redact_text_rereading text detections settings
  = redact_text text detections settings.
Proof.
  unfold redact_text_rereading, redact_text.
  destruct (all_detections settings detections) eqn:E; [done|].
  destruct (forallb offsets_are_ints _); [|done].
  pose proof (rewrite_loop_rereading_eq text _ (plan_sorted settings detections)
                (len text) [] ltac:(unfold len; lia) ltac:(lia)) as H.
  unfold len in H at 2 3. rewrite Nat2Z.id, take_ge, !app_nil_r in H by lia.
  apply H. apply Forall_forall. intros d _ Hd%in_range_spec. lia.
Qed.

Lemma rewrite_loop_skip (text : str) (l1 l2 : list Labelled) (d : Labelled)
    (w : str) :
  check text d = Ok false →
  rewrite_loop text (l1 ++ d :: l2) w = rewrite_loop text (l1 ++ l2) w.
Proof.
  intros Hd. revert w. induction l1 as [|x l1 IH]; intros w; simpl.
  - unfold rewrite_step. by rewrite Hd.
  - destruct (rewrite_step text w x); [apply IH|done].
Qed.

(** ** The plan has no overlap *)

(** C2. Any two spans of the plan the rewriter walks, taken at two
    different places of it, satisfy [a.end <= b.start] or
    [b.end <= a.start], and no character position lies in both, for every
    settings and detections map. *)
Theorem plan_spans_do_not_overlap (settings : Settings) (detections : Detections)
    (i j : nat) (a b : Labelled) :
  i ≠ j →
  redaction_plan settings detections !! i = Some a →
  redaction_plan settings detections !! j = Some b →
  (end_ (det a) ≤ start (det b) ∨ end_ (det b) ≤ start (det a))
  ∧ ∀ p : Z, ¬ (covers a p ∧ covers b p).
Proof.
  intros Hij Hi Hj.
  pose proof (plan_pairwise settings detections i j a b Hij Hi Hj) as Hd.
  split; [exact Hd|]. intros p [Ha Hb]. unfold covers, disjoint in *. lia.
Qed.

Lemma plan_spans_do_not_overlap_witness :
  (end_ sample_email ≤ start sample_phone ∨ end_ sample_phone ≤ start sample_email)
  ∧ ∀ p : Z,
      ¬ (covers (mkLabelled sample_email (VStr (py "[REDACTED_1]"))) p
         ∧ covers (mkLabelled sample_phone (VStr (py "[REDACTED_1]"))) p).
Proof.
  apply (plan_spans_do_not_overlap ∅ sample_detections 0 1
           (mkLabelled sample_email (VStr (py "[REDACTED_1]")))
           (mkLabelled sample_phone (VStr (py "[REDACTED_1]")))).
  - lia.
  - reflexivity.
  - reflexivity.
Defined.

(** ** The rewriter replaces the applied spans and nothing else *)

(** C1. The result of [redact_text] is the original text with each applied
    span replaced by its label, and a character of the original text that
    lies in no applied span is found unchanged in the result, moved by the
    lengths the labels before it have added or removed. Where there is a
    result, every label put into it is a string. *)
Theorem redact_text_verbatim_outside (text : str) (settings : Settings)
    (detections : Detections) (r : str) (p : Z) (c : char) :
  redact_text text detections settings = Ok r →
  0 ≤ p →
  text !! Z.to_nat p = Some c →
  Forall (λ d, ¬ covers d p) (applied_spans text settings detections) →
  redact_text text detections settings
  = (if forallb has_str_label (applied_spans text settings detections)
     then Ok (replace_spans text 0 (reverse (applied_spans text settings detections)))
     else Raise TypeError)
  ∧ r = replace_spans text 0 (reverse (applied_spans text settings detections))
  ∧ r !! Z.to_nat (p + shift (reverse (applied_spans text settings detections)) p)
    = Some c.
Proof.
  intros Hr Hp Hc Hout.
  pose proof (redact_text_ok _ _ _ _ Hr) as (_ & _ & Hlab & Heq).
  split; [by rewrite Hlab, Hr, Heq|]. split; [done|].
  rewrite <- Hc. by apply redact_text_lookup.
Qed.

Lemma redact_text_verbatim_outside_witness :
  redact_text sample_text sample_detections ∅
  = Ok (py "Call [REDACTED_1] or mail [REDACTED_1] today")
  ∧ py "Call [REDACTED_1] or mail [REDACTED_1] today" !! 40%nat = Some 111%N.
Proof.
  destruct (redact_text_verbatim_outside sample_text ∅ sample_detections
              (py "Call [REDACTED_1] or mail [REDACTED_1] today") 36 111%N)
    as (H1 & H2 & H3).
  - reflexivity.
  - lia.
  - reflexivity.
  - apply Forall_forall. intros d Hd%list_elem_of_In. vm_compute in Hd.
    destruct Hd as [<-|[<-|[]]]; unfold covers; simpl; lia.
  - split; [exact H1|exact H3].
Defined.

(** ** A span whose text does not match is skipped *)

(** C6, as amended. Reading the substring again from the working copy
    gives the same result as the source, which reads it from the original
    text. A span of the plan whose test gives false (it fails the guard, or
    its stored value is a string that the substring neither equals nor
    contains) is passed over without an error: where the sort has raised
    nothing, the result is the one of the plan without that span, and the
    characters the span covers are found unchanged in the result. *)
Theorem stale_span_is_skipped (text : str) (settings : Settings)
    (detections : Detections) (l1 l2 : list Labelled) (d : Labelled) :
  redaction_plan settings detections = l1 ++ d :: l2 →
  check text d = Ok false →
  redact_text_rereading text detections settings
  = redact_text text detections settings
  ∧ (in_range text d = false
     ∨ ∃ v, stored_value (det d) = VStr v
            ∧ slice text (start (det d)) (end_ (det d)) ≠ v
            ∧ contains (slice text (start (det d)) (end_ (det d))) v = false)
  ∧ (forallb offsets_are_ints (all_detections settings detections) = true →
     redact_text text detections settings = rewrite_loop text (l1 ++ l2) text)
  ∧ ∀ (r : str) (p : Z),
      redact_text text detections settings = Ok r → 0 ≤ p → covers d p →
      r !! Z.to_nat (p + shift (reverse (applied_spans text settings detections)) p)
      = text !! Z.to_nat p.
Proof.
  intros Hplan Hd. split; [apply redact_text_rereading_eq|]. split; [|split].
  - unfold check, value_matches in Hd. destruct (in_range text d); [|by left].
    right. destruct (stored_value (det d)) as [| | |v| |]; try done.
    exists v. injection Hd as Hd. apply orb_false_iff in Hd as [Hne Hc].
    by apply bool_decide_eq_false in Hne.
  - intros Hsort. rewrite redact_text_loop, Hsort, Hplan.
    by apply rewrite_loop_skip.
  - intros r p Hr Hp Hcov. apply redact_text_lookup; [done..|].
    apply Forall_forall. intros a [Ha Hin]%list_elem_of_filter [Ha1 Ha2].
    apply list_elem_of_lookup in Hin as [i Hi].
    assert (redaction_plan settings detections !! length l1 = Some d) as Hj.
    { rewrite Hplan. by rewrite list_lookup_middle. }
    destruct (decide (i = length l1)) as [->|Hne].
    + rewrite Hj in Hi. simplify_eq.
      rewrite (check_false_applies _ _ Hd) in Ha. done.
    + pose proof (plan_pairwise _ _ _ _ _ _ Hne Hi Hj) as Hdis.
      unfold covers, disjoint in *. lia.
Qed.

Lemma stale_span_is_skipped_witness :
  redact_text_rereading sample_text stale_detections ∅
  = Ok (py "Call 555-123-4567 or mail [REDACTED_1] today")
  ∧ redact_text sample_text stale_detections ∅
    = Ok (py "Call 555-123-4567 or mail [REDACTED_1] today").
Proof.
  destruct (stale_span_is_skipped sample_text ∅ stale_detections
              [mkLabelled sample_email (VStr (py "[REDACTED_1]"))] []
              (mkLabelled stale_phone (VStr (py "[REDACTED_1]"))))
    as (H1 & _ & H2 & _).
  - reflexivity.
  - reflexivity.
  - rewrite H1, H2 by reflexivity. split; reflexivity.
Defined.

(** C6, as stated, fails: the phone span lies inside the text and holds
    [None] where its value should be; the substring does not equal it, the
    test [in] raises a [TypeError], and so does [redact_text], which
    returns a text for the same plan without that span. *)
Lemma unchecked_value_raises :
  redaction_plan ∅ valueless_detections
  = [ mkLabelled sample_email (VStr (py "[REDACTED_1]"));
      mkLabelled valueless_phone (VStr (py "[REDACTED_1]")) ]
  ∧ in_range sample_text (mkLabelled valueless_phone (VStr (py "[REDACTED_1]")))
    = true
  ∧ py_eq (VStr (slice sample_text 5 17)) (stored_value valueless_phone) = false
  ∧ redact_text sample_text valueless_detections ∅ = Raise TypeError
  ∧ redact_text sample_text [ (py "emails", [sample_email]) ] ∅
    = Ok (py "Call 555-123-4567 or mail [REDACTED_1] today").
Proof. repeat split. Qed.

(** ** Resolution by size *)

Lemma plan_not_both (settings : Settings) (detections : Detections)
    (a b : Labelled) :
  a ≠ b → overlaps a b = true →
  ¬ (a ∈ redaction_plan settings detections
     ∧ b ∈ redaction_plan settings detections).
Proof.
  intros Hne Hov [[i Hi]%list_elem_of_lookup [j Hj]%list_elem_of_lookup].
  destruct (decide (i = j)) as [->|Hij]; [congruence|].
  pose proof (plan_pairwise _ _ _ _ _ _ Hij Hi Hj) as Hd.
  apply overlaps_false in Hd. congruence.
Qed.

(** A candidate is in the plan when every other candidate that overlaps it
    is shorter. *)
Lemma plan_keeps_dominant (settings : Settings) (detections : Detections)
    (a : Labelled) :
  a ∈ all_detections settings detections →
  (∀ c, c ∈ all_detections settings detections → overlaps c a = true →
        c = a ∨ span_length c < span_length a) →
  a ∈ redaction_plan settings detections.
Proof.
  intros Ha Hdom. rewrite plan_perm.
  assert (a ∈ stable_sort size_key_le (all_detections settings detections)) as Hin
    by by rewrite stable_sort_perm.
  apply list_elem_of_split in Hin as (l1 & l2 & Heq).
  rewrite Heq. apply remove_overlaps_first.
  pose proof (stable_sort_sorted size_key_le size_key_le_total size_key_le_trans
                (all_detections settings detections)) as Hs.
  rewrite Heq in Hs. apply Forall_forall. intros c Hc.
  destruct (overlaps a c) eqn:Hov; [|by right].
  assert (size_key_le c a = true) as Hle.
  { apply (StronglySorted_app_1_elem_of (λ x y, size_key_le x y = true)
             l1 (a :: l2) c a Hs Hc). left. }
  apply size_key_le_spec in Hle.
  assert (c ∈ all_detections settings detections) as Hcand.
  { rewrite <- (stable_sort_perm size_key_le), Heq. apply elem_of_app. by left. }
  rewrite overlaps_sym in Hov.
  destruct (Hdom c Hcand Hov) as [->|Hlt]; [by left|lia].
Qed.

(** Two spans that are not empty overlap, by the test of the sweep, exactly
    when they share a character position. *)
Lemma overlaps_shares_position (a b : Labelled) :
  start (det a) < end_ (det a) → start (det b) < end_ (det b) →
  overlaps a b = true ↔ ∃ p, covers a p ∧ covers b p.
Proof.
  intros Ha Hb. unfold overlaps, covers.
  rewrite negb_true_iff, orb_false_iff. split.
  - intros [H1 H2]. exists (Z.max (start (det a)) (start (det b))). lia.
  - intros (p & ? & ?). lia.
Qed.

(** C5, as amended. The candidates are swept by length descending, then by
    start ascending, and a span is kept exactly when it overlaps no span
    kept before it. Two overlapping candidates of different lengths are
    never both in the plan; the longer one is in the plan, and the shorter
    one is not, when every other candidate that overlaps the longer one
    is shorter than it. *)
Theorem size_biased_resolution (settings : Settings) (detections : Detections)
    (a b : Labelled) :
  a ∈ all_detections settings detections →
  b ∈ all_detections settings detections →
  overlaps a b = true →
  span_length b < span_length a →
  let candidates := all_detections settings detections in
  let sorted := stable_sort size_key_le candidates in
  let plan := redaction_plan settings detections in
  sorted ≡ₚ candidates
  ∧ StronglySorted
      (λ x y, span_length y < span_length x
              ∨ (span_length x = span_length y ∧ start (det x) ≤ start (det y)))
      sorted
  ∧ plan ≡ₚ remove_overlaps sorted
  ∧ (∀ l d, remove_overlaps (l ++ [d]) =
              if existsb (overlaps d) (remove_overlaps l)
              then remove_overlaps l else remove_overlaps l ++ [d])
  ∧ (∀ x y, start (det x) < end_ (det x) → start (det y) < end_ (det y) →
            overlaps x y = true ↔ ∃ p, covers x p ∧ covers y p)
  ∧ ¬ (a ∈ plan ∧ b ∈ plan)
  ∧ ((∀ c, c ∈ candidates → overlaps c a = true →
           c = a ∨ span_length c < span_length a) →
     a ∈ plan ∧ b ∉ plan).
Proof.
  intros Ha Hb Hov Hlen. simpl.
  assert (a ≠ b) as Hne by (intros ->; lia).
  split; [apply stable_sort_perm|]. split.
  { eapply StronglySorted_mono;
      [|apply (stable_sort_sorted size_key_le);
        [apply size_key_le_total|apply size_key_le_trans]].
    intros x y. apply size_key_le_spec. }
  split; [apply plan_perm|]. split; [apply remove_overlaps_snoc|].
  split; [apply overlaps_shares_position|]. split.
  - by apply plan_not_both.
  - intros Hdom. assert (a ∈ redaction_plan settings detections) as Hin
      by by apply plan_keeps_dominant.
    split; [done|]. intros Hbin. by eapply plan_not_both.
Qed.

Lemma size_biased_resolution_witness :
  let long := mkLabelled nested_address (VStr (py "[REDACTED_1]")) in
  let short := mkLabelled nested_card (VStr (py "[REDACTED_1]")) in
  long ∈ redaction_plan ∅ nested_detections
  ∧ short ∉ redaction_plan ∅ nested_detections.
Proof.
  intros long short.
  apply (size_biased_resolution ∅ nested_detections long short).
  - apply list_elem_of_lookup. by exists 0%nat.
  - apply list_elem_of_lookup. by exists 1%nat.
  - reflexivity.
  - vm_compute. reflexivity.
  - intros c [i Hi]%list_elem_of_lookup Hov.
    destruct i as [|[|i]]; vm_compute in Hi; simplify_eq.
    + left. reflexivity.
    + right. vm_compute. reflexivity.
Defined.

(** C5, as stated, fails: of the overlapping spans [8,14) and [13,16) the
    longer one is dropped, because it overlaps the still longer [0,10), and
    the shorter one is kept. *)
Lemma longer_overlapping_span_can_be_dropped :
  let middle := mkLabelled chain_middle (VStr (py "[REDACTED_2]")) in
  let short := mkLabelled chain_short (VStr (py "[REDACTED_3]")) in
  middle ∈ all_detections ∅ chain_detections
  ∧ short ∈ all_detections ∅ chain_detections
  ∧ overlaps middle short = true
  ∧ (span_length short < span_length middle)
  ∧ (middle ∉ redaction_plan ∅ chain_detections)
  ∧ short ∈ redaction_plan ∅ chain_detections.
Proof.
  intros middle short. repeat split.
  - apply list_elem_of_lookup. by exists 1%nat.
  - apply list_elem_of_lookup. by exists 2%nat.
  - intros [i Hi]%list_elem_of_lookup.
    destruct i as [|[|i]]; vm_compute in Hi; simplify_eq.
  - apply list_elem_of_lookup. by exists 0%nat.
Qed.

(** ** Labels *)

Lemma indexed_style_label (settings : Settings) (pii_type : str) (index : Z) :
  indexed_style settings = true →
  get_redaction_label pii_type index settings = indexed_label pii_type (index + 1).
Proof.
  unfold indexed_style, get_redaction_label. intros [H1 H2]%andb_true_iff.
  apply negb_true_iff in H1, H2. by rewrite H1, H2.
Qed.

Lemma display_name_unknown (pii_type : str) :
  pii_type ∉ [py "email"; py "phone"; py "name"; py "address"; py "ssn";
              py "credit_card"] →
  display_name pii_type = py "REDACTED".
Proof.
  intros Hk. unfold display_name, type_labels. simpl.
  repeat (case_bool_decide as E;
          [exfalso; apply Hk; rewrite <- E; set_solver|clear E]).
  done.
Qed.

(** C10. Under the indexed style a category string that is none of the six
    keys of the label table gets the display name REDACTED and the label
    "[REDACTED_n]" with n = index + 1; so do the five plural keys under
    which [redact_text] labels the spans. *)
Theorem unknown_category_label_is_redacted
    (pii_type : str) (index : Z) (settings : Settings) :
  pii_type ∉ [py "email"; py "phone"; py "name"; py "address"; py "ssn";
              py "credit_card"] →
  indexed_style settings = true →
  get_redaction_label pii_type index settings
  = VStr (py "[REDACTED_" ++ str_of_int (index + 1) ++ py "]")
  ∧ Forall (λ key, get_redaction_label key index settings
                   = VStr (py "[REDACTED_" ++ str_of_int (index + 1) ++ py "]"))
           [py "emails"; py "phones"; py "names"; py "addresses";
            py "credit_cards"].
Proof.
  intros Hk Hstyle. split.
  - rewrite indexed_style_label by done. unfold indexed_label.
    by rewrite display_name_unknown.
  - repeat constructor; by rewrite indexed_style_label.
Qed.

Lemma unknown_category_label_is_redacted_witness :
  get_redaction_label (py "phones") 0 ∅ = VStr (py "[REDACTED_1]").
Proof.
  apply (unknown_category_label_is_redacted (py "phones") 0 ∅).
  - apply (bool_decide_unpack _). vm_compute. exact I.
  - reflexivity.
Defined.

(** The counter of a key advances by one for each of its spans. *)
Lemma collect_items_enabled (settings : Settings) (k : str)
    (items : list Item) (acc : list Labelled) (counts : gmap (list N) Z) :
  category_enabled settings k = true →
  ∃ counts',
    foldl (collect_item settings k) (acc, counts) items
    = (acc ++ imap (λ i item,
                      mkLabelled item
                        (get_redaction_label k
                           (default 0 (counts !! k) + Z.of_nat i) settings))
                   items,
       counts')
    ∧ ∀ k', k' ≠ k → counts' !! k' = counts !! k'.
Proof.
  intros Hen. revert acc counts.
  induction items as [|item items IH]; intros acc counts; simpl.
  - exists counts. by rewrite app_nil_r.
  - rewrite Hen.
    destruct (IH (acc ++ [mkLabelled item
                            (get_redaction_label k
                               (default 0 (<[k:=default 0 (counts !! k) + 1]> counts !! k) - 1)
                               settings)])
                 (<[k:=default 0 (counts !! k) + 1]> counts))
      as (counts' & -> & Hother).
    exists counts'. split.
    + rewrite <- app_assoc. simpl. rewrite !lookup_insert_eq. simpl.
      f_equal. f_equal. f_equal.
      * f_equal. f_equal. lia.
      * apply imap_ext. intros i x _. cbn [compose]. f_equal. f_equal. lia.
    + intros k' Hk'. rewrite Hother by done. by rewrite lookup_insert_ne.
Qed.

Lemma collect_items_disabled (settings : Settings) (k : str)
    (items : list Item) (st : list Labelled * gmap (list N) Z) :
  category_enabled settings k = false →
  foldl (collect_item settings k) st items = st.
Proof.
  intros Hen. induction items as [|item items IH]; simpl; [done|].
  destruct st as [acc counts]. simpl. by rewrite Hen.
Qed.

Lemma collect_numbered (settings : Settings)
    (detections : Detections)
    (acc : list Labelled) (counts : gmap (list N) Z) :
  indexed_style settings = true →
  NoDup detections.*1 →
  (∀ k, k ∈ detections.*1 → counts !! k = None) →
  (foldl (collect_category settings) (acc, counts) detections).1
  = acc ++ concat (numbered settings <$> detections).
Proof.
  intros Hstyle. revert acc counts.
  induction detections as [|[k items] detections IH]; intros acc counts Hnd Hfresh; simpl.
  - by rewrite app_nil_r.
  - apply NoDup_cons in Hnd as [Hk Hnd]. unfold collect_category at 2. simpl.
    unfold numbered at 1. simpl.
    destruct (category_enabled settings k) eqn:Hen.
    + destruct (collect_items_enabled settings k items acc counts Hen)
        as (counts' & -> & Hother).
      rewrite IH; [|done|].
      * rewrite <- app_assoc. do 2 f_equal.
        apply imap_ext. intros i x _. simpl.
        rewrite (Hfresh k) by (simpl; left). simpl.
        rewrite indexed_style_label by done. done.
      * intros k' Hk'. rewrite Hother by (intros ->; done).
        apply Hfresh. simpl. by right.
    + rewrite collect_items_disabled by done.
      rewrite IH; [done|done|]. intros k' Hk'. apply Hfresh. simpl. by right.
Qed.

(** Every candidate carries a label [get_redaction_label] has made. *)
Lemma collect_labels (settings : Settings)
    (detections : Detections)
    (acc : list Labelled) (counts : gmap (list N) Z) :
  Forall (λ d, ∃ k i, redaction_label d = get_redaction_label k i settings) acc →
  Forall (λ d, ∃ k i, redaction_label d = get_redaction_label k i settings)
         (foldl (collect_category settings) (acc, counts) detections).1.
Proof.
  revert acc counts.
  induction detections as [|[k items] detections IH]; intros acc counts Hacc; [done|].
  simpl. unfold collect_category at 2. simpl.
  destruct (category_enabled settings k) eqn:Hen.
  - destruct (collect_items_enabled settings k items acc counts Hen)
      as (counts' & -> & _).
    apply IH. apply Forall_app. split; [done|].
    apply Forall_forall. intros d (i & x & -> & _)%elem_of_lookup_imap. simpl. eauto.
  - rewrite collect_items_disabled by done. by apply IH.
Qed.

(** C3, as amended. Under the indexed style the candidates are the spans
    of the detections map, key after key, each with the label "[NAME_n]"
    where NAME is the display name looked up for its key and n is its rank
    in the list of that key, counted from 1 before any overlap is resolved;
    every span of the plan is one of them, label included. *)
Theorem indexed_labels_follow_detection_order
    (settings : Settings) (detections : Detections) :
  NoDup detections.*1 →
  indexed_style settings = true →
  all_detections settings detections = concat (numbered settings <$> detections)
  ∧ ∀ d, d ∈ redaction_plan settings detections →
         d ∈ concat (numbered settings <$> detections).
Proof.
  intros Hnd Hstyle.
  assert (all_detections settings detections
          = concat (numbered settings <$> detections)) as Heq.
  { unfold all_detections, collect.
    rewrite collect_numbered; [done|done|done|]. intros k _. apply lookup_empty. }
  split; [done|]. intros d Hd. rewrite <- Heq. by apply plan_subseteq.
Qed.

Lemma indexed_labels_follow_detection_order_witness :
  all_detections ∅ ssn_detections
  = [ mkLabelled ssn_second (VStr (py "[SSN_1]"));
      mkLabelled ssn_first (VStr (py "[SSN_2]")) ].
Proof.
  destruct (indexed_labels_follow_detection_order ∅ ssn_detections) as [H _].
  - apply (bool_decide_unpack _). vm_compute. exact I.
  - reflexivity.
  - rewrite H. reflexivity.
Defined.

(** C3, as stated, fails: of two identity numbers the one at position 50,
    listed first, gets "[SSN_1]" and the one at position 10 gets
    "[SSN_2]". *)
Lemma labels_are_not_numbered_by_position :
  redaction_plan ∅ ssn_detections
  = [ mkLabelled ssn_second (VStr (py "[SSN_1]"));
      mkLabelled ssn_first (VStr (py "[SSN_2]")) ]
  ∧ start ssn_first < start ssn_second
  ∧ redact_text ssn_text ssn_detections ∅
    = Ok (py "Ann's SSN [SSN_2] and the SSN of her husband, [SSN_1], are on file").
Proof. repeat split. Qed.

Lemma plan_labels (settings : Settings)
    (detections : Detections) (d : Labelled) :
  d ∈ redaction_plan settings detections →
  ∃ k i, redaction_label d = get_redaction_label k i settings.
Proof.
  intros Hd%plan_subseteq.
  pose proof (collect_labels settings detections [] ∅ (Forall_nil_2 _)) as H.
  rewrite Forall_forall in H. by apply H.
Qed.

Section Endpoint.
Context {World : Type} (lib : Library) (self : PIIDetector World).


(** C7, as amended. When the answer of the oracle is not JSON,
    [validate_pii] returns isPii = true unless the answer, in lower case,
    contains "false" or "not pii"; then it returns isPii = false. The
    loop over the items of a category other than names appends the
    candidate, with the answer as its reasoning, in the first case and
    leaves it out of the validated spans in the second. *)
Theorem malformed_validation_follows_its_wording
    (text candidate pii_type context response : str) (w w' : World) :
  generate_content self (ValidatePrompt context candidate pii_type) w
  = (inr response, w') →
  json_loads lib (unfence (strip response)) = None →
  let result_text := unfence (strip response) in
  let negative :=
    contains (lower lib result_text) (py "false")
    || contains (lower lib result_text) (py "not pii") in
  validate_pii lib self text candidate pii_type context w
  = (Ok (VBool (negb negative), VStr result_text), w')
  ∧ ∀ (item : Item),
      value item = candidate → context_window text item = context →
      (∀ validated_items,
         validate_single lib self text pii_type validated_items item w
         = (Ok (if negative then validated_items
                else validated_items ++ [with_reasoning item (VStr result_text)]),
            w'))
      ∧ (pii_type ≠ py "names" →
         ∀ validated_results,
           validate_category lib self text validated_results (pii_type, [item]) w
           = (Ok (validated_results ++
                    [(pii_type,
                      if negative then []
                      else [with_reasoning item (VStr result_text)])]),
              w')).
Proof.
  intros Hgen Hjson result_text negative.
  assert (validate_pii lib self text candidate pii_type context w
          = (Ok (VBool (negb negative), VStr result_text), w')) as Hv.
  { unfold validate_pii, mbind, M_bind, ask, lift. rewrite Hgen.
    unfold read_validation. rewrite Hjson. fold result_text. fold negative.
    by destruct negative. }
  split; [done|]. intros item Hvalue Hcontext.
  assert (∀ validated_items,
            validate_single lib self text pii_type validated_items item w
            = (Ok (if negative then validated_items
                   else validated_items
                        ++ [with_reasoning item (VStr result_text)]), w'))
    as Hsingle.
  { intros validated_items. unfold validate_single, validate_item.
    rewrite Hvalue, Hcontext.
    unfold mbind at 1, M_bind at 1. rewrite Hv. by destruct negative. }
  split; [done|]. intros Hkey validated_results.
  unfold validate_category. rewrite bool_decide_eq_false_2 by done.
  cbn [for_each]. unfold mbind at 1 2, M_bind at 1 2. rewrite Hsingle.
  by destruct negative.
Qed.

End Endpoint.



(** A span with offsets that are not integers. The oracle reports the
    address again with its offsets as strings: [detect_all] stores the span
    as it is, beside the one of the pattern, the sort key of [redact_text]
    raises a [TypeError], and the endpoint answers 500. *)
Lemma quoted_offsets_are_answered_500 :
  (∃ summary,
     detect_all quoted_offsets_library quoted_offsets_detector mail_text
                custom_style 0%nat
     = (Ok ([ (py "emails",
               [with_reasoning (detection (py "email") (py "bob@x.io") 5 13)
                               (VStr (py "ok"));
                mkStored (py "email") (VStr (py "bob@x.io")) (VStr (py "5"))
                         (VStr (py "13")) None true (Some (VStr (py "medium")))
                         (Some (VStr []))]);
              (py "phones", []); (py "names", []); (py "addresses", []);
              (py "ssn", []); (py "credit_cards", []) ],
            summary), 3%nat))
  ∧ redact_text_endpoint quoted_offsets_library quoted_offsets_detector mail_text
                         custom_style 0%nat
    = (HTTPException 500, 3%nat).
Proof. split; [eexists|]; vm_compute; reflexivity. Qed.

Lemma malformed_validation_follows_its_wording_witness :
  validate_pii Demo.library prose_detector mail_text (py "bob@x.io") (py "emails")
               mail_text 0%nat
  = (Ok (VBool false, VStr prose_answer), 1%nat)
  ∧ validate_single Demo.library prose_detector mail_text (py "emails") []
                    (detection (py "email") (py "bob@x.io") 5 13) 0%nat
    = (Ok [], 1%nat).
Proof.
  destruct (malformed_validation_follows_its_wording Demo.library prose_detector
              mail_text (py "bob@x.io") (py "emails") mail_text prose_answer
              0%nat 1%nat) as [Hverdict Hloop].
  - reflexivity.
  - reflexivity.
  - split; [exact Hverdict|].
    destruct (Hloop (detection (py "email") (py "bob@x.io") 5 13))
      as [Hsingle _]; [reflexivity..|].
    exact (Hsingle []).
Defined.

(** C7, as stated, fails: an answer in prose that says "false" makes
    [validate_pii] return isPii = false, and the candidate is dropped. *)
Lemma prose_validation_drops_the_candidate :
  json_loads Demo.library prose_answer = None
  ∧ validate_pii Demo.library prose_detector mail_text (py "bob@x.io")
                 (py "emails") mail_text 0%nat
    = (Ok (VBool false, VStr prose_answer), 1%nat)
  ∧ ∃ summary,
      detect_all Demo.library prose_detector mail_text ∅ 0%nat
      = (Ok ([ (py "emails", []); (py "phones", []); (py "names", []);
               (py "addresses", []); (py "ssn", []); (py "credit_cards", []) ],
             summary), 3%nat).
Proof. repeat split. eexists. vm_compute. reflexivity. Qed.

(** ** The fragment merger *)

Lemma stable_sort_sorted_id {A} (le : A → A → bool) (l : list A) :
  StronglySorted (λ a b, le a b = true) l → stable_sort le l = l.
Proof.
  induction 1 as [|x l Hs IH Hx]; simpl; [done|].
  rewrite IH. destruct l as [|y l]; simpl; [done|].
  inversion_clear Hx as [|? ? Hxy _]. by rewrite Hxy.
Qed.

Lemma start_le_total (x y : Item) : start_le x y = false → start_le y x = true.
Proof. unfold start_le. lia. Qed.

Lemma start_le_trans (x y z : Item) :
  start_le x y = true → start_le y z = true → start_le x z = true.
Proof. unfold start_le. lia. Qed.

Lemma absorb_loop_length (current : Item) (rest : list Item) :
  (length (absorb_loop current rest).2 ≤ length rest)%nat.
Proof.
  revert current. induction rest as [|next rest IH]; intros current; simpl; [done|].
  destruct (_ <=? 5); simpl; [|done]. specialize (IH (absorb current next)). lia.
Qed.

Lemma merge_loop_acc (rounds : nat) (from_i acc : list Item) :
  merge_loop rounds from_i acc = acc ++ merge_loop rounds from_i [].
Proof.
  revert from_i acc. induction rounds as [|n IH]; intros from_i acc; simpl.
  - by rewrite app_nil_r.
  - destruct from_i as [|current rest]; [by rewrite app_nil_r|].
    destruct (absorb_loop current rest) as [c r].
    rewrite IH, (IH _ ([] ++ [c])). by rewrite <- app_assoc.
Qed.

(** Rounds beyond the length of the list change nothing. *)
Lemma merge_loop_rounds (n m : nat) (from_i acc : list Item) :
  (length from_i ≤ n)%nat → (length from_i ≤ m)%nat →
  merge_loop n from_i acc = merge_loop m from_i acc.
Proof.
  revert m from_i acc. induction n as [|n IH]; intros m from_i acc Hn Hm.
  - destruct from_i; [|simpl in Hn; lia]. by destruct m.
  - destruct from_i as [|current rest]; [by destruct m|].
    destruct m as [|m]; [simpl in Hm; lia|]. simpl.
    pose proof (absorb_loop_length current rest) as Hlen.
    destruct (absorb_loop current rest) as [c r]. simpl in *.
    apply IH; lia.
Qed.

Lemma absorb_loop_chain (current : Item) (fragments rest : list Item) :
  close_chain (end_ current) fragments →
  (∀ next, head rest = Some next → 5 < start next - last_end current fragments) →
  absorb_loop current (fragments ++ rest) = (foldl absorb current fragments, rest).
Proof.
  revert current. induction fragments as [|f fragments IH]; intros current Hc Hgap.
  - simpl. destruct rest as [|next rest]; [done|]. simpl.
    specialize (Hgap next eq_refl). unfold last_end in Hgap. simpl in Hgap.
    destruct (Z.leb_spec (start next - end_ current) 5); [lia|done].
  - destruct Hc as [Hf Hc]. simpl.
    destruct (Z.leb_spec (start f - end_ current) 5); [|lia].
    apply IH; [done|]. intros next Hn. specialize (Hgap next Hn).
    unfold last_end in *. rewrite last_cons in Hgap.
    destruct (last fragments); simpl in *; done.
Qed.

Lemma foldl_absorb (current : Item) (fragments : list Item) (f : Item) :
  foldl absorb current (fragments ++ [f])
  = detection (py "name")
      (join (py " ") (value <$> current :: fragments ++ [f]))
      (start current) (end_ f).
Proof.
  revert current. induction fragments as [|g fragments IH]; intros current; simpl.
  - done.
  - rewrite IH. unfold detection. simpl. f_equal.
    destruct (fragments ++ [f]) eqn:E; [by destruct fragments|].
    simpl. by rewrite <- !app_assoc.
Qed.

(** C8. The merger works on the name spans sorted by start, smallest
    first. There the accumulator takes in each next span that starts
    within 5 characters of its end, along a whole chain of such spans, and
    stops at the first span further away (or at the end of the list),
    where a new accumulator begins; the merged span keeps the start of the
    first fragment, ends where the last one ends, and its value is the
    values joined by single spaces. *)
Theorem name_fragments_merge (names : list Item) (first : Item)
    (fragments rest : list Item) :
  stable_sort start_le names = first :: fragments ++ rest →
  close_chain (end_ first) fragments →
  (∀ next, head rest = Some next → 5 < start next - last_end first fragments) →
  (first :: fragments ++ rest ≡ₚ names
   ∧ StronglySorted (λ a b, start a ≤ start b) (first :: fragments ++ rest))
  ∧ merge_names names = foldl absorb first fragments :: merge_names rest
  ∧ (∀ next_name,
       absorb first next_name
       = detection (py "name") (value first ++ py " " ++ value next_name)
                   (start first) (end_ next_name))
  ∧ (∀ before f,
       fragments = before ++ [f] →
       foldl absorb first fragments
       = detection (py "name") (join (py " ") (value <$> first :: fragments))
                   (start first) (end_ f)).
Proof.
  intros Hsorted Hchain Hgap.
  pose proof (stable_sort_sorted start_le start_le_total start_le_trans names)
    as Hs.
  rewrite Hsorted in Hs. split; [|split; [|split]].
  - split; [rewrite <- Hsorted; apply stable_sort_perm|].
    eapply StronglySorted_mono; [|exact Hs]. intros a b. unfold start_le. lia.
  - unfold merge_names. rewrite Hsorted. simpl.
    rewrite absorb_loop_chain by done.
    rewrite merge_loop_acc. simpl. f_equal.
    assert (stable_sort start_le rest = rest) as ->.
    { apply stable_sort_sorted_id.
      by apply (StronglySorted_app_1_r _ (first :: fragments) rest) in Hs. }
    apply merge_loop_rounds; [rewrite length_app; lia|done].
  - done.
  - intros before f ->. apply foldl_absorb.
Qed.

Lemma name_fragments_merge_witness :
  detect_names emily_detector emily_text ∅
  = [detection (py "name") (py "Emily Johnson") 8 21]
  ∧ merge_names [detection (py "name") (py "Johnson") 14 21;
                 detection (py "name") (py "Emily") 8 13]
    = [detection (py "name") (py "Emily Johnson") 8 21].
Proof.
  destruct (name_fragments_merge
              [detection (py "name") (py "Johnson") 14 21;
               detection (py "name") (py "Emily") 8 13]
              (detection (py "name") (py "Emily") 8 13)
              [detection (py "name") (py "Johnson") 14 21] [])
    as (_ & H1 & _ & _).
  - reflexivity.
  - simpl. lia.
  - intros next Hnext. discriminate Hnext.
  - split; exact H1.
Defined.

(** ** Category gating *)

Lemma collect_skips_disabled (settings : Settings) (k : str)
    (detections : Detections) (st : list Labelled * gmap (list N) Z) :
  category_enabled settings k = false →
  foldl (collect_category settings) st detections
  = foldl (collect_category settings) st (filter (λ entry, entry.1 ≠ k) detections).
Proof.
  intros Hoff. revert st.
  induction detections as [|[k' items] detections IH]; intros st; [done|].
  rewrite filter_cons. simpl. destruct (decide (k' ≠ k)) as [Hne|Heq]; simpl.
  - apply IH.
  - apply dec_stable in Heq as ->.
    unfold collect_category at 2. simpl.
    rewrite collect_items_disabled by done. apply IH.
Qed.

(** The spans listed under a disabled key have no part in the result of
    [redact_text]: neither in the plan nor in the text. *)
Lemma disabled_category_is_not_redacted (text : str) (settings : Settings)
    (detections : Detections) (k : str) :
  category_enabled settings k = false →
  redaction_plan settings detections
  = redaction_plan settings (filter (λ entry, entry.1 ≠ k) detections)
  ∧ redact_text text detections settings
    = redact_text text (filter (λ entry, entry.1 ≠ k) detections) settings.
Proof.
  intros Hoff.
  assert (all_detections settings detections
          = all_detections settings (filter (λ entry, entry.1 ≠ k) detections)) as Heq.
  { unfold all_detections, collect. by rewrite (collect_skips_disabled settings k). }
  unfold redact_text, redaction_plan. by rewrite Heq.
Qed.

Section Producers.
Context {World : Type} (lib : Library) (self : PIIDetector World).

(** A producer whose flag is off yields nothing. *)
Lemma disabled_producers_yield_nothing (text : str) (settings : Settings) :
  (flag settings "redact_emails" = false → detect_emails self text settings = [])
  ∧ (flag settings "redact_phones" = false → detect_phones lib self text settings = [])
  ∧ (flag settings "redact_ssn" = false → detect_ssn self text settings = [])
  ∧ (flag settings "redact_credit_cards" = false →
     detect_credit_cards lib self text settings = [])
  ∧ (flag settings "redact_addresses" = false →
     detect_addresses self text settings = [])
  ∧ (flag settings "redact_names" = false →
     detect_names self text settings = [] ∧ detect_usernames self text settings = []).
Proof.
  unfold detect_emails, detect_phones, detect_ssn, detect_credit_cards,
    detect_addresses, detect_names, detect_usernames.
  split; [by intros ->|]. split; [by intros ->|]. split; [by intros ->|].
  split; [by intros ->|]. split; [by intros ->|].
  intros ->. simpl. by destruct (nlp self).
Qed.

End Producers.

(** C4 at the failing input. The e-mail category is disabled and the
    e-mail producer yields nothing, yet the address the oracle proposes in
    its discovery answer is in the detections of the reply, and counted in
    its statistics; only the text is left as it was. *)
Theorem discovered_span_of_disabled_category_is_reported :
  category_enabled emails_disabled (py "emails") = false
  ∧ detect_emails discovering_detector mail_text emails_disabled = []
  ∧ ∃ body,
      redact_text_endpoint Demo.library discovering_detector mail_text
                           emails_disabled 0%nat
      = (Reply200 body, 2%nat)
      ∧ dict_get (detections body) (py "emails") []
        = [mkItem (py "email") (py "bob@x.io") 5 13 None true
                  (Some (VStr (py "medium"))) (Some (VStr []))]
      ∧ dict_get (statistics body) (py "emails") 0 = 1
      ∧ redacted body = mail_text.
Proof.
  split; [reflexivity|]. split; [reflexivity|].
  eexists. repeat split; vm_compute; reflexivity.
Qed.

(** * Further properties *)


(** ** Length of the result *)

Lemma replace_spans_length (text : str) (asc : list Labelled) (pos : Z) :
  asc_chain pos asc → Forall (λ d, end_ (det d) ≤ len text) asc →
  0 ≤ pos → pos ≤ len text →
  len (replace_spans text pos asc) = len text - pos + length_change asc.
Proof.
  revert pos. induction asc as [|d rest IH]; intros pos Hc Hlen Hpos Hle; simpl in *.
  - rewrite slice_from_nonneg by done. unfold len in *. rewrite length_drop. lia.
  - destruct Hc as (H1 & H2 & H3). inversion_clear Hlen as [|? ? Hd Hrest].
    unfold len in *. rewrite !length_app.
    rewrite slice_nonneg, length_take, length_drop by lia.
    specialize (IH (end_ (det d)) H3 Hrest ltac:(lia) Hd).
    unfold span_length. lia.
Qed.

Lemma length_change_app (l1 l2 : list Labelled) :
  length_change (l1 ++ l2) = length_change l1 + length_change l2.
Proof. induction l1 as [|d l1 IH]; simpl; [done|]. unfold length_change in *. simpl. lia. Qed.

Lemma length_change_reverse (l : list Labelled) :
  length_change (reverse l) = length_change l.
Proof.
  induction l as [|d l IH]; [done|].
  rewrite reverse_cons, length_change_app, IH. unfold length_change. simpl. lia.
Qed.

(** X1. When [redact_text] returns, the length of the result is the length
    of the text, less the characters of the applied spans, plus the
    lengths of their labels. *)
Theorem redact_text_length (text : str) (settings : Settings)
    (detections : Detections) (r : str) :
  redact_text text detections settings = Ok r →
  len r = len text + length_change (applied_spans text settings detections).
Proof.
  intros (_ & _ & _ & ->)%redact_text_ok.
  destruct (applied_chain text settings detections) as [Hc Hl].
  rewrite replace_spans_length; [|done|done|lia|unfold len; lia].
  rewrite length_change_reverse. lia.
Qed.

Lemma redact_text_length_witness :
  len (py "Call [REDACTED_1] or mail [REDACTED_1] today") = len sample_text + 4.
Proof.
  exact (redact_text_length sample_text ∅ sample_detections
           (py "Call [REDACTED_1] or mail [REDACTED_1] today") eq_refl).
Defined.

(** ** When the rewriter raises *)

Lemma label_is_bad (settings : Settings) (k : str) (i : Z) :
  bad_custom_label settings →
  ∀ s, get_redaction_label k i settings ≠ VStr s.
Proof.
  intros [Hc (v & Hv & Hbad)] s. unfold get_redaction_label.
  destruct (eq_str _ (py "black_boxes")) eqn:Hb.
  { destruct (settings_get settings (py "redaction_style") (VStr (py "labels")));
      try done. simpl in *. apply bool_decide_eq_true in Hb, Hc.
    rewrite Hb in Hc. vm_compute in Hc. discriminate Hc. }
  rewrite Hc. unfold settings_get at 1. rewrite Hv. simpl. apply Hbad.
Qed.

Lemma label_not_str (settings : Settings) (k : str) (i : Z) :
  (∀ s, get_redaction_label k i settings ≠ VStr s) → bad_custom_label settings.
Proof.
  unfold get_redaction_label. intros Hbad.
  destruct (eq_str _ (py "black_boxes")); [by edestruct Hbad|].
  destruct (eq_str _ (py "custom")) eqn:Hc; [|by edestruct Hbad].
  split; [done|]. unfold settings_get in Hbad at 1.
  destruct (settings !! py "custom_label") as [v|] eqn:Hv; simpl in Hbad.
  - eauto.
  - by edestruct Hbad.
Qed.

Lemma forallb_false_elem {A} (f : A → bool) (l : list A) :
  forallb f l = false → ∃ x, x ∈ l ∧ f x = false.
Proof.
  induction l as [|x l IH]; simpl; [done|].
  destruct (f x) eqn:Hx; simpl.
  - intros (y & Hy & Hf)%IH. exists y. split; [by right|done].
  - intros _. exists x. split; [left|done].
Qed.

Lemma forallb_false_intro {A} (f : A → bool) (l : list A) (x : A) :
  x ∈ l → f x = false → forallb f l = false.
Proof.
  intros Hx Hf. destruct (forallb f l) eqn:Hall; [|done].
  rewrite forallb_forall in Hall. rewrite <- Hf. symmetry. apply Hall.
  by apply list_elem_of_In.
Qed.

Lemma labels_of_applied (text : str) (settings : Settings) (detections : Detections) :
  forallb has_str_label (applied_spans text settings detections) = false
  ↔ bad_custom_label settings ∧ applied_spans text settings detections ≠ [].
Proof.
  destruct (forallb has_str_label (applied_spans text settings detections)) eqn:Hall.
  - split; [done|]. intros [Hbad Hne].
    destruct (applied_spans text settings detections) as [|d l] eqn:Happ; [done|].
    simpl in Hall. apply andb_true_iff in Hall as [Hd _].
    assert (d ∈ redaction_plan settings detections) as Hin.
    { assert (d ∈ applied_spans text settings detections) as H by (rewrite Happ; left).
      by apply list_elem_of_filter in H as [_ H]. }
    apply plan_labels in Hin as (k & i & Hlab).
    unfold has_str_label in Hd. rewrite Hlab in Hd.
    destruct (get_redaction_label k i settings) eqn:E; try done.
    by apply (label_is_bad settings k i Hbad) in E.
  - split; [intros _|done].
    apply forallb_false_elem in Hall as (d & Hd & Hlab).
    split; [|intros Hnil; rewrite Hnil in Hd; by apply elem_of_nil in Hd].
    apply list_elem_of_filter in Hd as [_ Hd].
    apply plan_labels in Hd as (k & i & Hk).
    apply (label_not_str settings k i). intros s Hs.
    unfold has_str_label in Hlab. by rewrite Hk, Hs in Hlab.
Qed.

(** X2. [redact_text] raises nothing but a [TypeError], and raises it
    exactly in three cases: a span of an enabled category has an offset
    that is not an integer; a span of the plan passes the guard and its
    value is not a string; a span is to be replaced and the label, the
    custom label of the settings, is not a string. *)
Theorem redact_text_raises_type_errors_only (text : str)
    (settings : Settings) (detections : Detections) :
  (∀ e, redact_text text detections settings = Raise e → e = TypeError)
  ∧ (redact_text text detections settings = Raise TypeError
     ↔ (∃ d, d ∈ all_detections settings detections ∧ offsets_are_ints d = false)
       ∨ (∃ d, d ∈ redaction_plan settings detections
               ∧ in_range text d = true ∧ is_str (stored_value (det d)) = false)
       ∨ (bad_custom_label settings
          ∧ applied_spans text settings detections ≠ [])).
Proof.
  rewrite redact_text_spec. split.
  { intros e. destruct (_ && _); congruence. }
  rewrite <- labels_of_applied. split.
  - destruct (forallb offsets_are_ints _) eqn:Hsort.
    2: { intros _. left. by apply forallb_false_elem. }
    destruct (forallb (well_valued text) _) eqn:Hval.
    2: { intros _. right. left.
         apply forallb_false_elem in Hval as (d & Hd & Hv). exists d.
         rewrite well_valued_spec in Hv. apply orb_false_iff in Hv as [Hr Hv].
         apply negb_false_iff in Hr. done. }
    destruct (forallb has_str_label _); [done|]. intros _. by right; right.
  - intros [(d & Hd & Hf)|[(d & Hd & Hr & Hv)|Hlab]].
    + by rewrite (forallb_false_intro _ _ d Hd Hf).
    + rewrite (forallb_false_intro (well_valued text) _ d Hd).
      * by rewrite andb_false_r.
      * rewrite well_valued_spec, Hr, Hv. done.
    + rewrite Hlab. by rewrite andb_false_r.
Qed.

Lemma redact_text_raises_type_errors_only_witness :
  redact_text sample_text valueless_detections ∅ = Raise TypeError.
Proof.
  apply (redact_text_raises_type_errors_only sample_text ∅ valueless_detections).
  right. left. exists (mkLabelled valueless_phone (VStr (py "[REDACTED_1]"))).
  split; [|split; reflexivity].
  apply list_elem_of_lookup. by exists 1%nat.
Defined.

(** ** What the sweep drops *)

Lemma sweep_covers (acc all : list Labelled) (c : Labelled) :
  c ∈ all →
  c ∈ foldl keep_step acc all
  ∨ ∃ k, k ∈ foldl keep_step acc all ∧ overlaps c k = true.
Proof.
  revert acc. induction all as [|x all IH]; intros acc Hc; [by apply elem_of_nil in Hc|].
  simpl. apply elem_of_cons in Hc as [->|Hc]; [|by apply IH].
  unfold keep_step at 2 4. destruct (existsb (overlaps x) acc) eqn:He.
  - apply existsb_exists in He as (k & Hk%list_elem_of_In & Hov).
    right. exists k. split; [by apply keep_step_keeps|done].
  - left. apply keep_step_keeps, elem_of_app. right. left.
Qed.

(** X3. The sweep drops a candidate only for a reason: every candidate is
    in the plan or overlaps a span of the plan. *)
Theorem dropped_candidate_overlaps_the_plan (settings : Settings)
    (detections : Detections) (c : Labelled) :
  c ∈ all_detections settings detections →
  c ∈ redaction_plan settings detections
  ∨ ∃ k, k ∈ redaction_plan settings detections ∧ overlaps c k = true.
Proof.
  intros Hc.
  assert (c ∈ stable_sort size_key_le (all_detections settings detections)) as Hs
    by by rewrite stable_sort_perm.
  destruct (sweep_covers [] _ c Hs) as [H|(k & Hk & Hov)].
  - left. by rewrite plan_perm.
  - right. exists k. split; [by rewrite plan_perm|done].
Qed.

Lemma dropped_candidate_overlaps_the_plan_witness :
  ∃ k, k ∈ redaction_plan ∅ chain_detections
       ∧ overlaps (mkLabelled chain_middle (VStr (py "[REDACTED_2]"))) k = true.
Proof.
  destruct (dropped_candidate_overlaps_the_plan ∅ chain_detections
              (mkLabelled chain_middle (VStr (py "[REDACTED_2]"))))
    as [Hin|Hk].
  - apply list_elem_of_lookup. by exists 1%nat.
  - exfalso. apply list_elem_of_lookup in Hin as [i Hi].
    destruct i as [|[|i]]; vm_compute in Hi; simplify_eq.
  - exact Hk.
Defined.

(** X5. When the sort raises nothing and the test of every span of the
    plan gives false (the span fails the guard, or its value is a string
    that is not found at its offsets), [redact_text] returns the text as
    it is, whatever the label style. *)
Theorem nothing_applies_nothing_changes (text : str) (settings : Settings)
    (detections : Detections) :
  forallb offsets_are_ints (all_detections settings detections) = true →
  Forall (λ d, check text d = Ok false) (redaction_plan settings detections) →
  redact_text text detections settings = Ok text.
Proof.
  intros Hsort Hnone. rewrite redact_text_spec, Hsort.
  assert (applied_spans text settings detections = []) as ->.
  { unfold applied_spans. induction Hnone as [|d l Hd _ IH]; [done|].
    rewrite filter_cons, decide_False; [done|].
    by rewrite (check_false_applies _ _ Hd). }
  assert (forallb (well_valued text) (redaction_plan settings detections) = true)
    as ->.
  { apply forallb_forall. intros d Hd%list_elem_of_In.
    rewrite Forall_forall in Hnone. unfold well_valued. by rewrite (Hnone d Hd). }
  simpl. by rewrite slice_from_nonneg.
Qed.

Lemma nothing_applies_nothing_changes_witness :
  redact_text sample_text [(py "phones", [stale_phone])]
              {[ py "redaction_style" := VStr (py "custom");
                 py "custom_label" := VNone ]}
  = Ok sample_text.
Proof.
  apply nothing_applies_nothing_changes.
  - reflexivity.
  - repeat constructor.
Defined.

(** ** The merger *)

Lemma merge_loop_fused (n : nat) (current : Item) (rest : list Item) :
  (length rest < n)%nat → merge_loop n (current :: rest) [] = merge_from current rest.
Proof.
  revert current rest. induction n as [|n IH]; intros current rest Hn; [lia|].
  revert current Hn. induction rest as [|next rest IHrest]; intros current Hn.
  - simpl. by destruct n.
  - simpl in *. destruct (start next - end_ current <=? 5) eqn:E.
    + specialize (IHrest (absorb current next) ltac:(lia)). simpl in IHrest.
      exact IHrest.
    + rewrite merge_loop_acc. simpl. f_equal. apply IH. lia.
Qed.

Lemma merge_names_fused (names : list Item) :
  merge_names names
  = match stable_sort start_le names with
    | [] => []
    | first :: rest => merge_from first rest
    end.
Proof.
  unfold merge_names. destruct (stable_sort start_le names) as [|first rest]; [done|].
  apply merge_loop_fused. simpl. lia.
Qed.

Lemma merge_from_head (current : Item) (rest : list Item) :
  ∃ first out, merge_from current rest = first :: out ∧ start first = start current.
Proof.
  revert current. induction rest as [|next rest IH]; intros current; simpl; [eauto|].
  destruct (_ <=? 5); [|eauto].
  destruct (IH (absorb current next)) as (f & o & -> & Hs). eauto.
Qed.

Lemma merge_from_starts (s : Z) (current : Item) (rest : list Item) :
  Forall (λ x, s ≤ start x) (current :: rest) →
  Forall (λ x, s ≤ start x) (merge_from current rest).
Proof.
  revert current. induction rest as [|next rest IH]; intros current Hall; simpl; [done|].
  inversion_clear Hall as [|? ? Hc Hrest]. inversion_clear Hrest as [|? ? Hn Hrest'].
  destruct (_ <=? 5).
  - apply IH. by constructor.
  - constructor; [done|]. apply IH. by constructor.
Qed.

Lemma merge_from_sorted (current : Item) (rest : list Item) :
  StronglySorted (λ a b, start_le a b = true) (current :: rest) →
  StronglySorted (λ a b, start_le a b = true) (merge_from current rest).
Proof.
  revert current. induction rest as [|next rest IH]; intros current Hs; simpl.
  - repeat constructor.
  - apply StronglySorted_inv in Hs as [Hs Hc].
    pose proof Hs as [Hs' Hn]%StronglySorted_inv.
    inversion_clear Hc as [|? ? Hcn Hcrest].
    destruct (_ <=? 5).
    + apply IH. constructor; [done|]. done.
    + constructor; [by apply IH|].
      eapply Forall_impl; [apply (merge_from_starts (start current))|].
      * constructor; [unfold start_le in Hcn; lia|].
        eapply Forall_impl; [exact Hcrest|]. unfold start_le. simpl. lia.
      * unfold start_le. simpl. lia.
Qed.

Lemma far_apart_cons (a : Item) (l : list Item) :
  (∀ b, head l = Some b → 5 < start b - end_ a) → far_apart l → far_apart (a :: l).
Proof.
  intros Hhead Hl [|i] x y Hx Hy; simpl in *.
  - simplify_eq. apply Hhead. by destruct l.
  - eapply Hl; eauto.
Qed.

Lemma merge_from_far_apart (current : Item) (rest : list Item) :
  far_apart (merge_from current rest).
Proof.
  revert current. induction rest as [|next rest IH]; intros current; simpl.
  - intros [|i] a b Ha Hb; simpl in *; done.
  - destruct (Z.leb_spec (start next - end_ current) 5); [apply IH|].
    apply far_apart_cons; [|apply IH].
    destruct (merge_from_head next rest) as (f & o & -> & Hs).
    simpl. intros b [= <-]. lia.
Qed.

Lemma merge_from_fixed (current : Item) (rest : list Item) :
  far_apart (current :: rest) → merge_from current rest = current :: rest.
Proof.
  revert current. induction rest as [|next rest IH]; intros current Hfar; simpl; [done|].
  pose proof (Hfar 0%nat current next eq_refl eq_refl) as Hgap.
  destruct (Z.leb_spec (start next - end_ current) 5); [lia|].
  f_equal. apply IH. intros i a b Ha Hb. by apply (Hfar (S i)).
Qed.

(** X6. The merged name spans are sorted by start and lie more than 5
    characters apart, so merging them again changes nothing. *)
Theorem merge_names_settles (names : list Item) :
  merge_names (merge_names names) = merge_names names
  ∧ StronglySorted (λ a b, start a ≤ start b) (merge_names names)
  ∧ far_apart (merge_names names).
Proof.
  rewrite (merge_names_fused names).
  pose proof (stable_sort_sorted start_le start_le_total start_le_trans names) as Hs.
  destruct (stable_sort start_le names) as [|first rest]; [repeat split; [constructor|done]|].
  pose proof (merge_from_sorted first rest Hs) as Hsorted.
  pose proof (merge_from_far_apart first rest) as Hfar.
  split; [|split; [|done]].
  - rewrite merge_names_fused, stable_sort_sorted_id by done.
    destruct (merge_from first rest) as [|f o] eqn:E; [done|].
    by apply merge_from_fixed.
  - eapply StronglySorted_mono; [|exact Hsorted]. intros a b. unfold start_le. lia.
Qed.

(** ** Search and the discovery fallback *)

Lemma startswith_app (s pre : str) :
  startswith s pre = true ↔ ∃ rest, s = pre ++ rest.
Proof.
  revert s. induction pre as [|p pre IH]; intros s.
  - destruct s; simpl; (split; [eauto|done]).
  - destruct s as [|c s]; simpl.
    + split; [done|]. by intros [rest ?].
    + rewrite andb_true_iff, bool_decide_eq_true, IH. split.
      * intros [-> [rest ->]]. eauto.
      * intros [rest [= -> ->]]. eauto.
Qed.

Lemma find_from_found (s sub : str) (i r : Z) :
  0 ≤ i → find_from s sub i = r → r ≠ -1 →
  ∃ k : nat, r = i + Z.of_nat k ∧ (k ≤ length s)%nat
             ∧ startswith (drop k s) sub = true.
Proof.
  revert i. induction s as [|c s IH]; intros i Hi Hr Hne; cbn [find_from] in Hr.
  - destruct (startswith [] sub) eqn:E; [|congruence].
    exists 0%nat. simpl. split; [lia|]. split; [lia|done].
  - destruct (startswith (c :: s) sub) eqn:E.
    + exists 0%nat. simpl. split; [lia|]. split; [lia|done].
    + destruct (IH (i + 1) ltac:(lia) Hr Hne) as (k & -> & Hk & Hs).
      exists (S k). simpl. split; [lia|]. split; [lia|done].
Qed.

Lemma find_from_missing (s sub : str) (i : Z) :
  0 ≤ i → (find_from s sub i = -1 ↔ contains s sub = false).
Proof.
  revert i. induction s as [|c s IH]; intros i Hi; cbn [find_from contains].
  - destruct (startswith [] sub); simpl; split; (done || lia).
  - destruct (startswith (c :: s) sub); simpl.
    + split; (done || lia).
    + apply IH. lia.
Qed.

Lemma find_spec (text v : str) :
  (contains text v = false → find text v = -1)
  ∧ (contains text v = true →
     0 ≤ find text v ∧ find text v + len v ≤ len text
     ∧ slice text (find text v) (find text v + len v) = v).
Proof.
  unfold find. split.
  - intros H. by apply find_from_missing.
  - intros Hc.
    assert (find_from text v 0 ≠ -1) as Hne.
    { intros H. apply find_from_missing in H; [congruence|lia]. }
    destruct (find_from_found text v 0 _ ltac:(lia) eq_refl Hne) as (k & Hk & Hlen & Hs).
    apply startswith_app in Hs as [rest Hrest].
    assert (length text = (k + (length v + length rest))%nat) as Htotal.
    { rewrite <- (take_drop k text) at 1. rewrite length_app, Hrest, length_app.
      rewrite length_take. lia. }
    rewrite Hk. unfold len. split; [lia|]. split; [lia|].
    rewrite slice_nonneg by lia.
    replace (Z.to_nat (0 + Z.of_nat k)) with k by lia.
    replace (Z.to_nat (0 + Z.of_nat k + Z.of_nat (length v)) - k)%nat
      with (length v) by lia.
    rewrite Hrest. by rewrite take_app_length.
Qed.

Lemma find_from_first (s sub : str) (i : Z) (k : nat) :
  find_from s sub i ≠ -1 → i + Z.of_nat k < find_from s sub i →
  startswith (drop k s) sub = false.
Proof.
  revert i k. induction s as [|c s IH]; intros i k Hne Hk; cbn [find_from] in *.
  - destruct (startswith [] sub); [lia|done].
  - destruct (startswith (c :: s) sub) eqn:E; [lia|].
    destruct k as [|k]; [done|]. simpl. apply (IH (i + 1)); [done|lia].
Qed.

(** No occurrence lies before the one [find] gives. *)
Lemma find_first (text v : str) (j : Z) :
  0 ≤ j → j < find text v → slice text j (j + len v) ≠ v.
Proof.
  intros Hj Hlt Heq. unfold find in Hlt.
  assert (startswith (drop (Z.to_nat j) text) v = false) as Hs.
  { apply (find_from_first text v 0); lia. }
  assert (startswith (drop (Z.to_nat j) text) v = true); [|congruence].
  apply startswith_app. exists (drop (length v) (drop (Z.to_nat j) text)).
  rewrite slice_nonneg in Heq by (unfold len; lia).
  rewrite <- Heq at 1.
  replace (Z.to_nat (j + len v) - Z.to_nat j)%nat with (length v)
    by (unfold len; lia).
  by rewrite take_drop.
Qed.

(** X9. A discovery entry whose start or end is missing or -1 is located
    by [text.find(value)]: when the value does not occur in the text the
    entry is dropped, and when it occurs the entry gets the offsets of its
    first occurrence: the span lies inside the text, reads the value
    there, and the value is read at no position before it. *)
Theorem discovery_without_offsets_is_located (text : str) (d : list (str * pyval))
    (v : str) :
  dict_get d (py "value") (VStr []) = VStr v →
  is_minus_one (dict_get d (py "start") (VInt (-1)))
  || is_minus_one (dict_get d (py "end") (VInt (-1))) = true →
  (contains text v = false → read_discovery text (VDict d) = Ok None)
  ∧ (contains text v = true →
     ∃ entry pos,
       read_discovery text (VDict d) = Ok (Some entry)
       ∧ pos = find text v
       ∧ nd_value entry = VStr v
       ∧ nd_start entry = VInt pos
       ∧ nd_end entry = VInt (pos + len v)
       ∧ 0 ≤ pos
       ∧ pos + len v ≤ len text
       ∧ slice text pos (pos + len v) = v
       ∧ ∀ j, 0 ≤ j → j < pos → slice text j (j + len v) ≠ v).
Proof.
  intros Hv Hoff. unfold read_discovery. rewrite Hv, Hoff.
  destruct (find_spec text v) as [Hmiss Hfound]. split.
  - intros Hc. by rewrite (Hmiss Hc).
  - intros Hc. destruct (Hfound Hc) as (H0 & Hlen & Hslice).
    destruct (Z.eqb_spec (find text v) (-1)); [lia|].
    eexists _, (find text v). split; [done|]. simpl.
    do 7 (split; [done|]). intros j Hj Hlt. by apply find_first.
Qed.

Lemma discovery_without_offsets_is_located_witness :
  ∃ entry,
    read_discovery (py "bob@x.io wrote to bob@x.io")
                   (VDict [(py "value", VStr (py "bob@x.io"))])
    = Ok (Some entry)
    ∧ nd_start entry = VInt 0 ∧ nd_end entry = VInt 8.
Proof.
  destruct (discovery_without_offsets_is_located (py "bob@x.io wrote to bob@x.io")
              [(py "value", VStr (py "bob@x.io"))] (py "bob@x.io"))
    as [_ Hfound].
  - reflexivity.
  - reflexivity.
  - destruct (Hfound eq_refl) as (entry & pos & Hread & _).
    exists entry. split; [exact Hread|].
    vm_compute in Hread. injection Hread as <-. split; reflexivity.
Defined.

(** ** The oracle out of reach *)

Section Down.
Context {World : Type} (lib : Library) (self : PIIDetector World).

Lemma runtime_only_ret {A : Type} (a : A) : runtime_only (World:=World) (mret a).
Proof. intros w. left. by exists a, w. Qed.

Lemma runtime_only_bind {A B : Type} (m : M World A) (k : A → M World B) :
  runtime_only m → (∀ a, runtime_only (k a)) → runtime_only (m ≫= k).
Proof.
  intros Hm Hk w. unfold mbind, M_bind.
  destruct (Hm w) as [(a & w' & ->)|(why & w' & ->)]; [apply Hk|].
  right. by exists why, w'.
Qed.

Lemma runtime_only_for_each {A S : Type} (body : S → A → M World S)
    (xs : list A) (acc : S) :
  (∀ acc x, runtime_only (body acc x)) → runtime_only (for_each body xs acc).
Proof.
  intros Hbody. revert acc. induction xs as [|x xs IH]; intros acc; simpl.
  - apply runtime_only_ret.
  - apply runtime_only_bind; [apply Hbody|apply IH].
Qed.

Lemma gemini_error_runtime (what : gemini_failure) (msg : str) :
  ∃ why, gemini_error lib what msg = RuntimeError why.
Proof. unfold gemini_error. destruct (_ || _); eauto. Qed.

Lemma runtime_only_ask (what : gemini_failure) (prompt : Prompt) :
  runtime_only (ask lib self what prompt).
Proof.
  intros w. unfold ask. destruct (generate_content self prompt w) as [[msg|t] w'].
  - right. destruct (gemini_error_runtime what msg) as [why ->]. by exists why, w'.
  - left. by eexists _, _.
Qed.

Lemma runtime_only_validate_pii (text candidate pii_type context : str) :
  runtime_only (validate_pii lib self text candidate pii_type context).
Proof.
  apply runtime_only_bind; [apply runtime_only_ask|].
  intros result_text w. unfold lift, read_validation.
  destruct (json_loads lib (unfence result_text)) as [v|].
  - destruct v; try (right; by eexists _, _). left. by eexists _, _.
  - left. destruct (_ || _); by eexists _, _.
Qed.

Lemma runtime_only_validate_category (text : str) (acc : Detections)
    (entry : str * list Item) :
  runtime_only (validate_category lib self text acc entry).
Proof.
  destruct entry as [pii_type items]. unfold validate_category.
  apply runtime_only_bind; [|intros; apply runtime_only_ret].
  case_bool_decide.
  - apply runtime_only_for_each. intros validated group_.
    unfold validate_group. destruct group_ as [|first [|second others]].
    + apply runtime_only_ret.
    + apply runtime_only_bind; [apply runtime_only_validate_pii|].
      intros [is_valid reasoning_]. destruct (truthy is_valid); [apply runtime_only_ret|].
      destruct (existsb _ _); apply runtime_only_ret.
    + apply runtime_only_bind; [apply runtime_only_validate_pii|].
      intros [is_valid reasoning_]. destruct (truthy is_valid); apply runtime_only_ret.
  - apply runtime_only_for_each. intros validated item.
    unfold validate_single.
    apply runtime_only_bind; [apply runtime_only_validate_pii|].
    intros [is_valid reasoning_]. destruct (truthy is_valid); apply runtime_only_ret.
Qed.

Lemma ask_down (what : gemini_failure) (prompt : Prompt) (w : World) :
  model_down self →
  ∃ why w', ask lib self what prompt w = (Raise (RuntimeError why), w').
Proof.
  intros Hdown. unfold ask. destruct (Hdown prompt w) as (msg & w' & ->).
  destruct (gemini_error_runtime what msg) as [why ->]. by exists why, w'.
Qed.

Lemma detect_all_down (text : str) (settings : Settings) (w : World) :
  model_down self →
  ∃ why w', detect_all lib self text settings w = (Raise (RuntimeError why), w').
Proof.
  intros Hdown. unfold detect_all.
  pose proof (runtime_only_for_each (validate_category lib self text)
                (produce lib self text settings) []
                (runtime_only_validate_category text) w) as Hv.
  unfold mbind at 1, M_bind at 1.
  destruct Hv as [(validated & w1 & ->)|(why & w1 & ->)]; [|by exists why, w1].
  unfold discover_pii. unfold mbind at 1, M_bind at 1. unfold mbind at 1, M_bind at 1.
  destruct (ask_down DiscoveryFailed
              (DiscoverPrompt (slice_to text 2000)
                 (joined_or (summary_lines (py "found") validated) (py "None")))
              w1 Hdown) as (why & w2 & ->).
  by exists why, w2.
Qed.

(** X12. When the language model answers no prompt (every call of
    [generate_content] raises), the text endpoint answers 503 whatever the
    text and the settings are: the discovery step asks the model on every
    request, and its failure reaches the endpoint as a [RuntimeError].
    The patterns and the spaCy pipeline are functions here, so they return
    on every text. *)
Theorem model_down_gives_503 (text : str) (settings : Settings) (w : World) :
  model_down self →
  ∃ w', redact_text_endpoint lib self text settings w = (HTTPException 503, w').
Proof.
  intros Hdown. unfold redact_text_endpoint.
  destruct (detect_all_down text settings w Hdown) as (why & w' & ->).
  by exists w'.
Qed.

End Down.

Lemma model_down_gives_503_witness :
  ∃ calls,
    redact_text_endpoint Demo.library unreachable_detector mail_text ∅ 0%nat
    = (HTTPException 503, calls).
Proof.
  apply model_down_gives_503.
  intros prompt w. by eexists _, _.
Defined.


(** ** The PDF endpoint and the custom label *)


Section Pdf.
Context {World : Type} (lib : Library) (self : PIIDetector World).


End Pdf.


(** ** The detections map of [detect_all] *)

Lemma bind_ok {World A B : Type} (m : M World A) (k : A → M World B)
    (w w' : World) (b : B) :
  (m ≫= k) w = (Ok b, w') → ∃ a w1, m w = (Ok a, w1) ∧ k a w1 = (Ok b, w').
Proof.
  unfold mbind, M_bind. destruct (m w) as [[a|e] w1]; [eauto|done].
Qed.

Section Keys.
Context {World : Type} (lib : Library) (self : PIIDetector World).

Lemma validate_category_keys (text : str) (acc res : Detections)
    (entry : str * list Item) (w w' : World) :
  validate_category lib self text acc entry w = (Ok res, w') →
  ∃ validated, res = acc ++ [(entry.1, validated)].
Proof.
  destruct entry as [pii_type items]. unfold validate_category.
  intros (validated & w1 & _ & Hret)%bind_ok.
  injection Hret as <- _. eauto.
Qed.

Lemma for_each_validate_keys (text : str) (entries acc res : Detections)
    (w w' : World) :
  for_each (validate_category lib self text) entries acc w = (Ok res, w') →
  res.*1 = acc.*1 ++ entries.*1.
Proof.
  revert acc w. induction entries as [|entry entries IH]; intros acc w; simpl.
  - intros [= <- _]. by rewrite app_nil_r.
  - intros (acc1 & w1 & Hv & Hrest)%bind_ok.
    apply validate_category_keys in Hv as [validated ->].
    rewrite (IH _ _ Hrest), fmap_app, <- app_assoc. done.
Qed.

Lemma mapped_type_is_a_key (det_type : pyval) (mapped_type : str) :
  mapped_type_of det_type = Ok mapped_type → mapped_type ∈ category_keys.
Proof.
  unfold mapped_type_of, category_keys.
  destruct det_type as [| | |s| |]; try (intros [= <-]; set_solver); [|done..].
  intros [= <-]. unfold type_mapping. simpl.
  repeat (case_bool_decide; [set_solver|]). set_solver.
Qed.

Lemma dict_append_keys {V : Type} (d : list (str * list V)) (k : str) (v : V) :
  k ∈ d.*1 → (dict_append d k v).*1 = d.*1.
Proof.
  induction d as [|[k' l] d IH]; simpl; [by intros ?%elem_of_nil|].
  case_bool_decide as E; [done|]. intros [?|Hk]%elem_of_cons; [congruence|].
  simpl. f_equal. by apply IH.
Qed.

Lemma add_discoveries_keys (d res : Detections) (news : list Discovery) :
  d.*1 = category_keys → add_discoveries d news = Ok res → res.*1 = category_keys.
Proof.
  revert d. induction news as [|new_det news IH]; intros d Hd; simpl.
  - by intros [= <-].
  - destruct (add_discovery d new_det) as [d1|] eqn:Hadd; [|done].
    apply IH. unfold add_discovery in Hadd.
    destruct (mapped_type_of (nd_type new_det)) as [k|] eqn:Hk; [|done].
    destruct (existsb _ _); injection Hadd as <-; [done|].
    rewrite dict_append_keys; [done|]. rewrite Hd. by eapply mapped_type_is_a_key.
Qed.

(** X10. Whenever [detect_all] returns, the detections map has the six
    category keys, in the order emails, phones, names, addresses, ssn,
    credit_cards: validation keeps every key, also of a disabled or empty
    category, and discovery adds no key. *)
Theorem detect_all_keeps_the_six_keys (text : str) (settings : Settings)
    (w w' : World) (results : Detections) (summary : str) :
  detect_all lib self text settings w = (Ok (results, summary), w') →
  results.*1 = category_keys.
Proof.
  unfold detect_all.
  intros (validated & w1 & Hv & Hrest)%bind_ok.
  apply bind_ok in Hrest as (news & w2 & _ & Hrest).
  apply bind_ok in Hrest as (added & w3 & Hadd & Hrest).
  apply bind_ok in Hrest as (expl & w4 & _ & Hret).
  injection Hret as <- _ _.
  apply for_each_validate_keys in Hv. simpl in Hv.
  unfold lift in Hadd. injection Hadd as Hadd _.
  by apply (add_discoveries_keys validated added news).
Qed.

End Keys.

Lemma detect_all_keeps_the_six_keys_witness :
  ∃ results summary,
    detect_all Demo.library discovering_detector mail_text emails_disabled 0%nat
    = (Ok (results, summary), 2%nat)
    ∧ results.*1 = category_keys.
Proof.
  eexists _, _. split.
  - vm_compute. reflexivity.
  - eapply (detect_all_keeps_the_six_keys Demo.library discovering_detector
              mail_text emails_disabled 0%nat 2%nat).
    vm_compute. reflexivity.
Defined.

(** ** Discoveries do not repeat a span *)

Lemma dict_append_all {V : Type} (P : list V → Prop) (d : list (str * list V))
    (k : str) (v : V) :
  Forall (λ entry, P entry.2) d →
  P (dict_get d k [] ++ [v]) →
  Forall (λ entry, P entry.2) (dict_append d k v).
Proof.
  induction 1 as [|[k' l] d Hl Hd IH]; simpl; intros Hnew.
  - by repeat constructor.
  - case_bool_decide; constructor; auto.
Qed.

Lemma discoveries_are_new_snoc (items : list Item) (new : Item) :
  discoveries_are_new items →
  existsb (λ existing, py_eq (stored_start existing) (stored_start new)
                       && py_eq (stored_end existing) (stored_end new))
          items = false →
  discoveries_are_new (items ++ [new]).
Proof.
  intros Hold Hfresh i j a b Hij Ha Hb Hdisc [Hs He].
  assert (j < length (items ++ [new]))%nat as Hj by by eapply lookup_lt_Some.
  rewrite length_app in Hj. simpl in Hj.
  destruct (decide (j < length items)%nat) as [Hlt|Hge].
  - rewrite lookup_app_l in Ha, Hb by lia. by apply (Hold i j a b).
  - assert (j = length items) as -> by lia.
    rewrite lookup_app_l in Ha by lia.
    rewrite list_lookup_middle in Hb by done. injection Hb as <-.
    assert (existsb (λ existing,
                       py_eq (stored_start existing) (stored_start new)
                       && py_eq (stored_end existing) (stored_end new))
                    items = true)
      as Hdup; [|congruence].
    apply existsb_exists. exists a. split.
    + apply list_elem_of_In. by eapply list_elem_of_lookup_2.
    + by rewrite Hs, He.
Qed.

(** X11. Step 4 of [detect_all] never appends a discovered span that has
    the start and end of a span already listed under the same key: if the
    discovered entries of every key were new when they were appended, they
    still are after the discoveries of this request are added. *)
Theorem discoveries_never_repeat_a_span (validated_results results : Detections)
    (new_detections : list Discovery) :
  Forall (λ entry, discoveries_are_new entry.2) validated_results →
  add_discoveries validated_results new_detections = Ok results →
  Forall (λ entry, discoveries_are_new entry.2) results.
Proof.
  revert validated_results.
  induction new_detections as [|new_det news IH]; intros d Hd; simpl.
  - by intros [= <-].
  - destruct (add_discovery d new_det) as [d1|] eqn:Hadd; [|done].
    apply IH. unfold add_discovery in Hadd.
    destruct (mapped_type_of (nd_type new_det)) as [k|]; [|done].
    destruct (existsb _ (dict_get d k [])) eqn:Hdup; injection Hadd as <-; [done|].
    apply dict_append_all; [done|].
    apply discoveries_are_new_snoc; [|done].
    clear -Hd. induction Hd as [|[k' l] d Hl _ IH]; simpl.
    + intros i j a b _ Ha. done.
    + case_bool_decide; [done|apply IH].
Qed.

Lemma discoveries_never_repeat_a_span_witness :
  Forall (λ entry : str * list Item, discoveries_are_new entry.2)
    [(py "emails",
      [sample_email;
       mkItem (py "email") (py "ann@y.org") 0 9 None true
              (Some (VStr (py "high"))) (Some (VStr []))])].
Proof.
  apply (discoveries_never_repeat_a_span
           [(py "emails", [sample_email])] _
           [mkDiscovery (VStr (py "email")) (VStr (py "bob@x.io")) (VInt 26)
                        (VInt 34) (VStr (py "high")) (VStr []);
            mkDiscovery (VStr (py "email")) (VStr (py "ann@y.org")) (VInt 0)
                        (VInt 9) (VStr (py "high")) (VStr [])]).
  - repeat constructor. intros i [|j] a b Hij Ha Hb; [lia|done].
  - reflexivity.
Defined.

(** ** The phone producer *)

Section Phones.
Context {World : Type} (lib : Library) (self : PIIDetector World).

Lemma foldl_patterns {S : Type} (f : S → Match → S) (text : str)
    (patterns : list (str → list Match)) (st : S) :
  foldl (λ st pattern, foldl f st (pattern text)) st patterns
  = foldl f st (patterns ≫= λ pattern, pattern text).
Proof.
  revert st. induction patterns as [|pattern patterns IH]; intros st; simpl; [done|].
  by rewrite foldl_app, IH.
Qed.

Lemma phone_steps (Q : Match → Prop) (matches : list Match)
    (phones : list Item) (seen : gset (Z * Z)) :
  Forall Q matches →
  NoDup ((λ p, (start p, end_ p)) <$> phones) →
  (∀ p, p ∈ phones → (start p, end_ p) ∈ seen) →
  Forall (λ p, type_ p = py "phone" ∧ 10 ≤ digit_count lib (value p)
               ∧ ∃ m, Q m ∧ value p = group m ∧ start p = m_start m
                      ∧ end_ p = m_end m) phones →
  let out := (foldl (phone_step lib) (phones, seen) matches).1 in
  NoDup ((λ p, (start p, end_ p)) <$> out)
  ∧ Forall (λ p, type_ p = py "phone" ∧ 10 ≤ digit_count lib (value p)
                 ∧ ∃ m, Q m ∧ value p = group m ∧ start p = m_start m
                        ∧ end_ p = m_end m) out.
Proof.
  intros HQ. revert phones seen.
  induction HQ as [|m matches Hm HQ IH]; intros phones seen Hnd Hseen Hall; simpl; [done|].
  case_bool_decide as Hin; [by apply IH|].
  destruct (Z.leb_spec 10 (digit_count lib (group m))) as [Hdig|Hdig].
  - apply IH.
    + rewrite fmap_app. apply NoDup_app. split; [done|]. split.
      * intros pos (p & -> & Hp)%list_elem_of_fmap Hpos.
        apply list_elem_of_singleton in Hpos. simpl in Hpos.
        apply Hin. rewrite <- Hpos. by apply Hseen.
      * simpl. apply NoDup_singleton.
    + intros p [Hp|Hp]%elem_of_app.
      * apply elem_of_union. right. by apply Hseen.
      * apply list_elem_of_singleton in Hp as ->. simpl.
        apply elem_of_union. left. by apply elem_of_singleton.
    + apply Forall_app. split; [done|]. constructor; [|done].
      simpl. split; [done|]. split; [done|]. by exists m.
  - apply IH; [done| |done]. intros p Hp. apply elem_of_union. right. by apply Hseen.
Qed.

(** X8. [detect_phones] reports no position twice, and every span it
    reports has type phone, holds at least ten digits and is the text,
    start and end of a match of one of the phone patterns. *)
Theorem detect_phones_sound (text : str) (settings : Settings) :
  NoDup ((λ p, (start p, end_ p)) <$> detect_phones lib self text settings)
  ∧ Forall (λ p, type_ p = py "phone" ∧ 10 ≤ digit_count lib (value p)
                 ∧ ∃ m, (∃ pattern, pattern ∈ phone_patterns self ∧ m ∈ pattern text)
                        ∧ value p = group m ∧ start p = m_start m
                        ∧ end_ p = m_end m)
           (detect_phones lib self text settings).
Proof.
  unfold detect_phones. destruct (negb _); [split; constructor|].
  rewrite foldl_patterns. apply phone_steps.
  - apply Forall_forall. intros m (pattern & Hm & Hp)%list_elem_of_bind. eauto.
  - constructor.
  - intros p Hp. by apply elem_of_nil in Hp.
  - constructor.
Qed.

End Phones.

(** ** The name pool *)

Section Pool.
Context {World : Type} (lib : Library) (self : PIIDetector World).

Lemma add_username_cases (positions : gset (Z * Z)) (pool0 : list Item)
    (username : Item) :
  add_username positions pool0 username = pool0
  ∨ (existsb (ranges_overlap username) pool0 = false
     ∧ add_username positions pool0 username = pool0 ++ [username]).
Proof.
  unfold add_username. case_bool_decide; [by left|].
  destruct (existsb _ _); [by left|by right].
Qed.

Lemma add_usernames (positions : gset (Z * Z)) (names usernames pool0 : list Item) :
  (∀ i j a u, (i < j)%nat → pool0 !! i = Some a → pool0 !! j = Some u →
              (length names ≤ j)%nat → ranges_overlap u a = false) →
  (length names ≤ length pool0)%nat →
  (∃ added, foldl (add_username positions) pool0 usernames = pool0 ++ added
            ∧ added `sublist_of` usernames)
  ∧ ∀ i j a u, (i < j)%nat →
               foldl (add_username positions) pool0 usernames !! i = Some a →
               foldl (add_username positions) pool0 usernames !! j = Some u →
               (length names ≤ j)%nat → ranges_overlap u a = false.
Proof.
  revert pool0. induction usernames as [|username usernames IH];
    intros pool0 Hinv Hlen; simpl.
  - split; [|exact Hinv]. exists []. by rewrite app_nil_r.
  - destruct (add_username_cases positions pool0 username) as [->|[Hov ->]].
    { destruct (IH pool0 Hinv Hlen) as [(added & Heq & Hsub) Hall].
      split; [|exact Hall]. exists added. split; [done|]. by apply sublist_cons. }
    destruct (IH (pool0 ++ [username])) as [(added & Heq & Hsub) Hall].
    + intros i j a u Hij Ha Hu Hj.
      pose proof (lookup_lt_Some _ _ _ Hu) as Hjl.
      rewrite length_app in Hjl. simpl in Hjl.
      destruct (decide (j < length pool0)%nat).
      * rewrite lookup_app_l in Ha, Hu by lia. by apply (Hinv i j a u).
      * assert (j = length pool0) as -> by lia.
        rewrite list_lookup_middle in Hu by done. injection Hu as <-.
        rewrite lookup_app_l in Ha by lia.
        destruct (ranges_overlap username a) eqn:E; [|done].
        assert (existsb (ranges_overlap username) pool0 = true) as H; [|congruence].
        apply existsb_exists. exists a. split; [|done].
        apply list_elem_of_In. by eapply list_elem_of_lookup_2.
    + rewrite length_app. lia.
    + split; [|exact Hall]. exists (username :: added).
      split; [by rewrite Heq, <- app_assoc|]. by apply sublist_skip.
Qed.

(** X15. The names that [detect_all] validates are the spans of
    [detect_names] followed by some of the spans of [detect_usernames], in
    their order; a username is appended only if it overlaps no span that is
    in the list before it. *)
Theorem usernames_join_without_overlap (text : str) (settings : Settings) :
  let names := detect_names self text settings in
  let usernames := detect_usernames self text settings in
  let pool := dict_get (produce lib self text settings) (py "names") [] in
  (∃ added, pool = names ++ added ∧ added `sublist_of` usernames)
  ∧ ∀ i j a u, (i < j)%nat → pool !! i = Some a → pool !! j = Some u →
               (length names ≤ j)%nat → ranges_overlap u a = false.
Proof.
  intros names usernames pool.
  assert (pool = foldl (add_username
                          (list_to_set ((λ n, (start n, end_ n)) <$> names)))
                       names usernames) as -> by reflexivity.
  apply add_usernames; [|done].
  intros i j a u Hij Ha Hu Hj. apply lookup_lt_Some in Hu. lia.
Qed.

End Pool.

(** ** A full name is kept whatever the oracle says *)

Lemma stable_sort_always {A : Type} (l : list A) :
  stable_sort (λ _ _ : A, true) l = l.
Proof.
  induction l as [|x l IH]; simpl; [done|]. rewrite IH. by destruct l.
Qed.

Lemma dict_get_append {V : Type} (d : list (str * list V)) (k k' : str) (v : V) :
  dict_get (dict_append d k v) k' []
  = if bool_decide (k = k') then dict_get d k' [] ++ [v] else dict_get d k' [].
Proof.
  induction d as [|[k0 l] d IH]; simpl.
  - by case_bool_decide.
  - destruct (decide (k0 = k)) as [->|Hne].
    + rewrite bool_decide_eq_true_2 by done. simpl. by case_bool_decide.
    + rewrite (bool_decide_eq_false_2 (k0 = k)) by done. simpl.
      destruct (decide (k0 = k')) as [->|Hne'].
      * rewrite bool_decide_eq_true_2 by done.
        by rewrite bool_decide_eq_false_2 by congruence.
      * rewrite (bool_decide_eq_false_2 (k0 = k')) by done. apply IH.
Qed.

Lemma add_discoveries_grows (d res : Detections) (news : list Discovery)
    (k : str) (x : Item) :
  add_discoveries d news = Ok res → x ∈ dict_get d k [] → x ∈ dict_get res k [].
Proof.
  revert d. induction news as [|new_det news IH]; intros d; simpl.
  - by intros [= <-].
  - destruct (add_discovery d new_det) as [d1|] eqn:Hadd; [|done].
    intros Hres Hx. apply (IH d1 Hres). unfold add_discovery in Hadd.
    destruct (mapped_type_of (nd_type new_det)) as [k1|]; [|done].
    destruct (existsb _ _); injection Hadd as <-; [done|].
    rewrite dict_get_append. case_bool_decide; [|done].
    apply elem_of_app. by left.
Qed.

Section Groups.
Context {World : Type} (lib : Library) (self : PIIDetector World).

Lemma validate_group_keeps (text pii_type : str) (acc res group_ : list Item)
    (w w' : World) :
  validate_group lib self text pii_type acc group_ w = (Ok res, w') →
  (∀ x, x ∈ acc → x ∈ res)
  ∧ ∀ first second others, group_ = first :: second :: others →
      ∃ tag, with_reasoning (merged_group first (second :: others)) tag ∈ res.
Proof.
  unfold validate_group. destruct group_ as [|first [|second others]].
  - intros [= <- _]. split; [done|]. intros; done.
  - intros ([is_valid r] & w1 & _ & Hret)%bind_ok. split; [|intros; done].
    destruct (truthy is_valid); [|destruct (existsb _ _)];
      injection Hret as <- _; intros x Hx; try done; apply elem_of_app; by left.
  - intros ([is_valid r] & w1 & _ & Hret)%bind_ok.
    rewrite stable_sort_always in Hret.
    destruct (truthy is_valid); injection Hret as <- _.
    + split; [intros x Hx; apply elem_of_app; by left|].
      intros f s o [= <- <- <-]. exists r. apply elem_of_app. right. left.
    + split; [intros x Hx; apply elem_of_app; by left|].
      intros f s o [= <- <- <-]. eexists. apply elem_of_app. right. left.
Qed.

Lemma validate_groups_keep (text pii_type : str) (groups : list (list Item))
    (acc res : list Item) (w w' : World) :
  for_each (validate_group lib self text pii_type) groups acc w = (Ok res, w') →
  (∀ x, x ∈ acc → x ∈ res)
  ∧ ∀ first second others, first :: second :: others ∈ groups →
      ∃ tag, with_reasoning (merged_group first (second :: others)) tag ∈ res.
Proof.
  revert acc w. induction groups as [|group_ groups IH]; intros acc w; simpl.
  - intros [= <- _]. split; [done|]. intros f s o Hin. by apply elem_of_nil in Hin.
  - intros (acc1 & w1 & Hg & Hrest)%bind_ok.
    apply validate_group_keeps in Hg as [Hacc Hmerged].
    apply IH in Hrest as [Hacc1 Hrest]. split; [auto|].
    intros f s o [Heq|Hin]%elem_of_cons; [|by apply Hrest].
    destruct (Hmerged f s o (eq_sym Heq)) as [tag Htag]. eauto.
Qed.

(** X16. A group of two or more name fragments (each starting within 5
    characters of the end of the one before) is never dropped by
    validation: whenever [detect_all] returns, the names of its result hold
    the merged span, from the start of the first fragment to the end of the
    last, the values joined by spaces, whatever the model answers. *)
Theorem full_name_is_always_kept (text : str) (settings : Settings)
    (w w' : World) (results : Detections) (summary : str)
    (first second : Item) (others : list Item) :
  detect_all lib self text settings w = (Ok (results, summary), w') →
  first :: second :: others
    ∈ name_groups_of (dict_get (produce lib self text settings) (py "names") []) →
  ∃ tag, with_reasoning (merged_group first (second :: others)) tag
         ∈ dict_get results (py "names") [].
Proof.
  unfold detect_all. intros Hrun Hgroup.
  apply bind_ok in Hrun as (validated & w1 & Hv & Hrest).
  apply bind_ok in Hrest as (news & w2 & _ & Hrest).
  apply bind_ok in Hrest as (added & w3 & Hadd & Hrest).
  apply bind_ok in Hrest as (expl & w4 & _ & Hret).
  injection Hret as <- _ _. unfold lift in Hadd. injection Hadd as Hadd _.
  unfold produce in Hv. cbn [for_each] in Hv.
  apply bind_ok in Hv as (r1 & u1 & H1 & Hv).
  apply validate_category_keys in H1 as [v1 ->].
  apply bind_ok in Hv as (r2 & u2 & H2 & Hv).
  apply validate_category_keys in H2 as [v2 ->].
  apply bind_ok in Hv as (r3 & u3 & H3 & Hv).
  apply bind_ok in Hv as (r4 & u4 & H4 & Hv).
  apply validate_category_keys in H4 as [v4 ->].
  apply bind_ok in Hv as (r5 & u5 & H5 & Hv).
  apply validate_category_keys in H5 as [v5 ->].
  apply bind_ok in Hv as (r6 & u6 & H6 & Hv).
  apply validate_category_keys in H6 as [v6 ->].
  injection Hv as <- _.
  unfold validate_category in H3.
  apply bind_ok in H3 as (v3 & u & Hnames & Hret).
  injection Hret as <- _.
  rewrite bool_decide_eq_true_2 in Hnames by done.
  apply validate_groups_keep in Hnames as [_ Hkept].
  destruct (Hkept first second others Hgroup) as [tag Htag].
  exists tag. eapply add_discoveries_grows; [exact Hadd|]. exact Htag.
Qed.

End Groups.

Lemma full_name_is_always_kept_witness :
  ∃ tag,
    with_reasoning
      (merged_group (detection (py "name") (py "ejohn") 7 12)
                    [detection (py "name") (py "Emily Johnson") 13 26]) tag
    ∈ [with_reasoning
         (detection (py "name") (py "ejohn Emily Johnson") 7 26)
         (VStr (py "Full name context: " ++ prose_answer))].
Proof.
  edestruct (full_name_is_always_kept Demo.library login_detector login_text ∅
               0%nat 3%nat) as [tag Htag].
  - vm_compute. reflexivity.
  - apply list_elem_of_lookup. by exists 0%nat.
  - exists tag. exact Htag.
Defined.

(** ** Answers in a code fence *)

Lemma startswith_other (c x : N) (s sep : str) :
  x ≠ c → startswith (x :: s) (c :: sep) = false.
Proof. intros Hne. simpl. by rewrite bool_decide_eq_false_2. Qed.

Lemma partition_none (c : N) (sep s : str) :
  Forall (λ x, x ≠ c) s → partition s (c :: sep) = None.
Proof.
  induction 1 as [|x s Hx _ IH]; [done|].
  cbn [partition]. rewrite startswith_other by done. by rewrite IH.
Qed.

Lemma partition_skip (c : N) (sep pre z : str) :
  Forall (λ x, x ≠ c) pre →
  partition (pre ++ z) (c :: sep)
  = (λ ba, (pre ++ ba.1, ba.2)) <$> partition z (c :: sep).
Proof.
  induction 1 as [|x pre Hx _ IH]; simpl app.
  - by destruct (partition z (c :: sep)) as [[b a]|].
  - cbn [partition]. rewrite startswith_other by done. rewrite IH.
    by destruct (partition z (c :: sep)) as [[b a]|].
Qed.

Lemma partition_here (z sep : str) :
  startswith z sep = true → partition z sep = Some ([], drop (length sep) z).
Proof. intros H. destruct z; cbn [partition]; by rewrite H. Qed.

Lemma contains_none (c : N) (sep s : str) :
  Forall (λ x, x ≠ c) s → contains s (c :: sep) = false.
Proof.
  induction 1 as [|x s Hx _ IH]; [done|].
  cbn [contains]. by rewrite startswith_other, IH.
Qed.

Lemma contains_app (pre sub post : str) : contains (pre ++ sub ++ post) sub = true.
Proof.
  assert (startswith (sub ++ post) sub = true) as Hs.
  { clear. induction sub as [|c sub IH]; simpl; [by destruct post|].
    by rewrite bool_decide_eq_true_2, IH. }
  induction pre as [|x pre IH]; simpl app.
  - destruct (sub ++ post); cbn [contains]; by rewrite Hs.
  - cbn [contains]. rewrite IH. apply orb_true_r.
Qed.

Lemma split_first (s sep before after : str) :
  partition s sep = Some (before, after) → s ≠ [] →
  part (split s sep) 0 = before
  ∧ part (split s sep) 1 = part (split_rounds (length s - 1) after sep) 0.
Proof.
  intros Hp Hne. unfold split. destruct s as [|x s]; [done|].
  cbn [length split_rounds]. rewrite Hp. simpl.
  replace (length s - 0)%nat with (length s) by lia. done.
Qed.

Lemma split_rounds_head (n : nat) (s sep : str) :
  part (split_rounds (S n) s sep) 0
  = match partition s sep with Some (before, _) => before | None => s end.
Proof. cbn [split_rounds]. by destruct (partition s sep) as [[b a]|]. Qed.

Lemma split_none (s sep : str) :
  partition s sep = None → part (split s sep) 0 = s.
Proof.
  intros Hp. unfold split. destruct (length s); [done|].
  by rewrite split_rounds_head, Hp.
Qed.

Lemma startswith_same (c : N) (s sep : str) :
  startswith (c :: s) (c :: sep) = startswith s sep.
Proof. simpl. by rewrite bool_decide_eq_true_2. Qed.

Lemma startswith_backquote (tail sep : str) :
  no_backquote tail → startswith tail (96%N :: sep) = false.
Proof. intros [|t rest Ht _]; [done|]. by apply startswith_other. Qed.

Lemma fence_after_body (tail : str) :
  no_backquote tail →
  partition (py "```" ++ tail) (py "```json")
  = if startswith tail (py "json")
    then Some ([], drop 4 tail) else None.
Proof.
  intros Htail.
  change (py "```" ++ tail) with (96 :: 96 :: 96 :: tail)%N.
  change (py "```json") with (96 :: 96 :: 96 :: py "json")%N.
  destruct (startswith tail (py "json")) eqn:Hjson.
  - rewrite partition_here; [done|]. by rewrite !startswith_same.
  - cbn [partition]. rewrite !startswith_same, Hjson.
    rewrite !startswith_backquote by done.
    by rewrite (partition_none 96%N _ tail Htail).
Qed.

Lemma unfence_fenced (prose body tail : str) :
  no_backquote prose → no_backquote body → no_backquote tail →
  unfence (fenced prose body tail) = strip body.
Proof.
  intros Hprose Hbody Htail. unfold unfence, fenced.
  rewrite contains_app. f_equal.
  assert (partition (prose ++ py "```json" ++ body ++ py "```" ++ tail)
                    (py "```json")
          = Some (prose, body ++ py "```" ++ tail)) as Hfirst.
  { change (py "```json") with (96 :: py "``json")%N at 2.
    rewrite partition_skip by done.
    change (96 :: py "``json")%N with (py "```json").
    rewrite partition_here.
    - simpl. by rewrite app_nil_r.
    - clear. generalize (body ++ py "```" ++ tail). intros s.
      change (py "```json" ++ s) with (96 :: 96 :: 96 :: 106 :: 115 :: 111 :: 110 :: s)%N.
      change (py "```json") with (96 :: 96 :: 96 :: 106 :: 115 :: 111 :: 110 :: [])%N.
      rewrite !startswith_same. by destruct s. }
  destruct (split_first _ _ _ _ Hfirst) as [_ ->].
  { intros H. apply (f_equal length) in H. rewrite !length_app in H.
    change (length (py "```json")) with 7%nat in H. simpl in H. lia. }
  assert (∃ n, length (prose ++ py "```json" ++ body ++ py "```" ++ tail) - 1
               = S n)%nat as [n ->].
  { rewrite !length_app. change (length (py "```json")) with 7%nat.
    exists (length prose + 5 + length (body ++ py "```" ++ tail))%nat.
    rewrite !length_app. lia. }
  rewrite split_rounds_head.
  change (py "```json") with (96 :: py "``json")%N.
  rewrite partition_skip by done.
  change (96 :: py "``json")%N with (py "```json").
  rewrite fence_after_body by done.
  destruct (startswith tail (py "json")); cbn [fmap option_fmap option_map fst snd].
  - rewrite app_nil_r. apply split_none.
    change (py "```") with (96 :: py "``")%N. by apply partition_none.
  - assert (partition (body ++ py "```" ++ tail) (py "```")
            = Some (body, tail)) as Hsecond.
    { change (py "```") with (96 :: py "``")%N at 2.
      rewrite partition_skip by done.
      change (96 :: py "``")%N with (py "```").
      rewrite partition_here.
      - simpl. by rewrite app_nil_r.
      - change (py "```" ++ tail) with (96 :: 96 :: 96 :: tail)%N.
        change (py "```") with (96 :: 96 :: 96 :: [])%N.
        rewrite !startswith_same. by destruct tail. }
    destruct (split_first _ _ _ _ Hsecond) as [-> _]; [|done].
    intros H. apply (f_equal length) in H. rewrite !length_app in H.
    change (length (py "```")) with 3%nat in H. simpl in H. lia.
Qed.

Lemma unfence_plain (s : str) : no_backquote s → unfence s = s.
Proof.
  intros Hs. unfold unfence.
  change (py "```json") with (96 :: py "``json")%N.
  change (py "```") with (96 :: py "``")%N.
  by rewrite !contains_none.
Qed.

Lemma lstrip_by_forall (P : N → Prop) (drop_it : N → bool) (s : str) :
  Forall P s → Forall P (lstrip_by drop_it s).
Proof.
  induction 1 as [|c s Hc Hs IH]; simpl; [done|].
  destruct (drop_it c); [done|by constructor].
Qed.

Lemma strip_forall (P : N → Prop) (s : str) : Forall P s → Forall P (strip s).
Proof.
  intros Hs. unfold strip, rstrip_by.
  by apply Forall_reverse, lstrip_by_forall, Forall_reverse, lstrip_by_forall.
Qed.

Section Fence.
Context {World : Type} (lib : Library) (self : PIIDetector World).

(** X13. An answer of the model that wraps its JSON in a code fence
    tagged [json] (three backquotes and the tag, the body, three
    backquotes) is read as the stripped body of the fence, by
    [validate_pii] and by [discover_pii] alike; the prose before the fence
    and the text after it play no part. *)
Theorem fenced_answer_is_read_from_the_fence (text prose body tail : str) :
  no_backquote prose → no_backquote body → no_backquote tail →
  unfence (fenced prose body tail) = strip body
  ∧ read_validation lib (fenced prose body tail) = read_validation lib (strip body)
  ∧ read_discovery_answer lib text (fenced prose body tail)
    = read_discovery_answer lib text (strip body).
Proof.
  intros Hprose Hbody Htail.
  pose proof (unfence_fenced prose body tail Hprose Hbody Htail) as Hf.
  pose proof (unfence_plain (strip body) (strip_forall _ _ Hbody)) as Hp.
  unfold read_validation, read_discovery_answer. by rewrite Hf, Hp.
Qed.

(** X18. When the model's answer is valid JSON but not an object (a list,
    a number, a string), [validate_pii] does not fall back to a verdict: the
    [.get] on the value fails, the generic handler raises a [RuntimeError],
    and the request is aborted.  The same answer aborts [discover_pii]. *)
Theorem answer_that_is_no_object_aborts
    (text candidate pii_type context response : str) (w w' : World) (v : pyval) :
  generate_content self (ValidatePrompt context candidate pii_type) w
  = (inr response, w') →
  json_loads lib (unfence (strip response)) = Some v →
  (∀ d, v ≠ VDict d) →
  validate_pii lib self text candidate pii_type context w
  = (Raise (RuntimeError ValidationFailed), w')
  ∧ read_discovery_answer lib text (strip response)
    = Raise (RuntimeError DiscoveryFailed).
Proof.
  intros Hgen Hjson Hv.
  unfold validate_pii, mbind, M_bind, ask, lift. rewrite Hgen.
  unfold read_validation, read_discovery_answer. rewrite Hjson.
  destruct v; try done. by destruct (Hv d).
Qed.

End Fence.

Lemma fenced_answer_is_read_from_the_fence_witness :
  read_validation Demo.library
    (fenced (py "Here is my answer: ") ([10%N] ++ Demo.accept_answer ++ [10%N]) [])
  = Ok (VBool true, VStr (py "ok")).
Proof.
  destruct (fenced_answer_is_read_from_the_fence Demo.library []
              (py "Here is my answer: ")
              ([10%N] ++ Demo.accept_answer ++ [10%N]) [])
    as (_ & -> & _).
  - apply (bool_decide_unpack _). vm_compute. exact I.
  - apply (bool_decide_unpack _). vm_compute. exact I.
  - constructor.
  - reflexivity.
Defined.

Lemma answer_that_is_no_object_aborts_witness :
  validate_pii list_library list_detector mail_text (py "bob@x.io") (py "emails")
               mail_text 0%nat
  = (Raise (RuntimeError ValidationFailed), 1%nat).
Proof.
  apply (answer_that_is_no_object_aborts list_library list_detector mail_text
           (py "bob@x.io") (py "emails") mail_text (py "[]") 0%nat 1%nat
           (VList [])).
  - reflexivity.
  - reflexivity.
  - done.
Defined.

(** ** Labels of one key are distinct *)

Lemma py_inj (s s' : string) : py s = py s' → s = s'.
Proof.
  unfold py. intros H.
  rewrite <- (string_of_list_ascii_of_string s), <- (string_of_list_ascii_of_string s').
  f_equal. revert H. generalize (list_ascii_of_string s) (list_ascii_of_string s').
  induction l as [|a l IH]; intros [|a' l']; simpl; try done.
  intros [= Ha Hl]. f_equal; [|by apply IH].
  by rewrite <- (ascii_N_embedding a), <- (ascii_N_embedding a'), Ha.
Qed.

Lemma str_of_int_inj (n m : Z) : str_of_int n = str_of_int m → n = m.
Proof.
  unfold str_of_int. intros H%py_inj. apply to_int_inj.
  assert (∀ z, Z.to_int z ≠ Decimal.Pos Decimal.Nil
               ∧ Z.to_int z ≠ Decimal.Neg Decimal.Nil) as Hnn.
  { intros [|p|p]; simpl; split; try done; intros [= Hp];
      by apply Unsigned.to_uint_nonnil in Hp. }
  destruct (Hnn n) as [Hn1 Hn2]. destruct (Hnn m) as [Hm1 Hm2].
  pose proof (NilZero.isi _ Hn1 Hn2) as Hn. pose proof (NilZero.isi _ Hm1 Hm2) as Hm.
  rewrite H in Hn. congruence.
Qed.

(** X7. Under the indexed label style the labels of one category with
    different indices are different strings. *)
Theorem indexed_labels_are_distinct (settings : Settings) (pii_type : str)
    (i j : Z) :
  indexed_style settings = true → i ≠ j →
  get_redaction_label pii_type i settings ≠ get_redaction_label pii_type j settings.
Proof.
  intros Hstyle Hij. rewrite !indexed_style_label by done. unfold indexed_label.
  generalize (py "[") (py "_") (py "]") (display_name pii_type).
  intros open sep close name [= H].
  do 3 apply app_inv_head in H.
  apply app_inv_tail in H. apply str_of_int_inj in H. lia.
Qed.

Lemma indexed_labels_are_distinct_witness :
  get_redaction_label (py "ssn") 0 ∅ ≠ get_redaction_label (py "ssn") 1 ∅.
Proof.
  apply indexed_labels_are_distinct.
  - reflexivity.
  - lia.
Defined.

(** ** Choosing the model *)

Section Init.
Context (lib : Library).

Lemma pick_listed_sound (instantiates : str → bool) (models : list ModelInfo)
    (m : str) :
  pick_listed lib instantiates models = Some m →
  instantiates m = true
  ∧ ∃ model, model ∈ models ∧ m = short_name (model_name model)
             ∧ py "generateContent" ∈ supported_generation_methods model
             ∧ is_experimental lib m = false.
Proof.
  induction models as [|model models IH]; simpl; [done|].
  assert (pick_listed lib instantiates models = Some m →
          instantiates m = true
          ∧ ∃ model0, model0 ∈ model :: models ∧ m = short_name (model_name model0)
                      ∧ py "generateContent" ∈ supported_generation_methods model0
                      ∧ is_experimental lib m = false) as Hrest.
  { intros (Hi & model0 & Hin & Hrest)%IH. split; [done|].
    exists model0. split; [by right|done]. }
  case_bool_decide as Hgen; [|done].
  destruct (is_experimental lib (short_name (model_name model))) eqn:Hexp; [done|].
  destruct (instantiates (short_name (model_name model))) eqn:Hinst; [|done].
  intros [= <-]. split; [done|]. exists model. split; [left|done].
Qed.

Lemma pick_fallback_sound (instantiates : str → bool) (names : list str) (m : str) :
  pick_fallback instantiates names = Some m → instantiates m = true ∧ m ∈ names.
Proof.
  induction names as [|name names IH]; simpl; [done|].
  destruct (instantiates name) eqn:Hi.
  - intros [= <-]. split; [done|left].
  - intros [? ?]%IH. split; [done|by right].
Qed.

Lemma pick_fallback_complete (instantiates : str → bool) (names : list str) (m : str) :
  m ∈ names → instantiates m = true →
  ∃ m', pick_fallback instantiates names = Some m'.
Proof.
  induction names as [|name names IH]; simpl; [by intros ?%elem_of_nil|].
  intros [->|Hin]%elem_of_cons Hi.
  - rewrite Hi. eauto.
  - destruct (instantiates name); eauto.
Qed.

(** X17. If the detector is constructed, then the key was given and is
    not blank, the Gemini package is installed, and the model that was
    chosen could be instantiated and is either one of the three fallback
    names or a listed model that supports [generateContent] and whose short
    name holds none of the experimental markers. *)
Theorem construction_chooses_a_usable_model (available : bool)
    (listed : option (list ModelInfo)) (instantiates : str → bool)
    (gemini_api_key : option str) (m : str) :
  pii_detector_init lib available listed instantiates gemini_api_key
  = Constructed m →
  (∃ api_key, gemini_api_key = Some api_key ∧ strip api_key ≠ [])
  ∧ available = true
  ∧ instantiates m = true
  ∧ (m ∈ fallback_names
     ∨ ∃ models model,
         listed = Some models ∧ model ∈ models
         ∧ m = short_name (model_name model)
         ∧ py "generateContent" ∈ supported_generation_methods model
         ∧ is_experimental lib m = false).
Proof.
  unfold pii_detector_init, gemini_validator_init.
  destruct gemini_api_key as [api_key|]; [|done].
  destruct (decide (api_key = [])) as [Hk|Hk];
    [by rewrite bool_decide_eq_true_2|].
  rewrite !(bool_decide_eq_false_2 (api_key = [])) by done.
  destruct (decide (strip api_key = [])) as [Hs|Hs];
    [by rewrite bool_decide_eq_true_2|].
  rewrite (bool_decide_eq_false_2 (strip api_key = [])) by done.
  destruct available; [|done]. cbn [negb orb].
  intros Hc. split; [eauto|]. split; [done|].
  destruct (from_option (pick_listed lib instantiates) None listed) as [m'|] eqn:Hl.
  - injection Hc as <-. destruct listed as [models|]; [|done]. simpl in Hl.
    apply pick_listed_sound in Hl as (Hi & model & Hin & Hrest).
    split; [done|]. right. exists models, model. done.
  - destruct (pick_fallback instantiates fallback_names) as [m'|] eqn:Hf; [|done].
    injection Hc as <-. apply pick_fallback_sound in Hf as [Hi Hin]. by split; [|left].
Qed.

(** X19. With a key that is not blank and the package installed, the
    construction succeeds as soon as one of the three fallback names can be
    instantiated, whatever the listing gives (or if it fails); without the
    package the same key raises an [ImportError]. *)
Theorem construction_succeeds_with_a_fallback (listed : option (list ModelInfo))
    (instantiates : str → bool) (api_key m : str) :
  strip api_key ≠ [] → m ∈ fallback_names → instantiates m = true →
  (∃ m', pii_detector_init lib true listed instantiates (Some api_key)
         = Constructed m')
  ∧ pii_detector_init lib false listed instantiates (Some api_key)
    = RaisesImportError.
Proof.
  intros Hs Hin Hi. unfold pii_detector_init, gemini_validator_init.
  assert (api_key ≠ []) as Hk by (intros ->; by apply Hs).
  rewrite !(bool_decide_eq_false_2 (api_key = [])) by done.
  rewrite (bool_decide_eq_false_2 (strip api_key = [])) by done. cbn [negb orb].
  split; [|done].
  destruct (from_option _ None listed); [eauto|].
  destruct (pick_fallback_complete instantiates fallback_names m Hin Hi) as [m' ->].
  eauto.
Qed.

End Init.

Lemma construction_chooses_a_usable_model_witness :
  is_experimental Demo.library (py "gemini-1.5-flash-8b") = false
  ∨ py "gemini-1.5-flash-8b" ∈ fallback_names.
Proof.
  destruct (construction_chooses_a_usable_model Demo.library true
              (Some listed_models) (λ _, true) (Some (py "secret"))
              (py "gemini-1.5-flash-8b"))
    as (_ & _ & _ & [Hf|(models & model & _ & _ & _ & _ & Hexp)]).
  - reflexivity.
  - by right.
  - by left.
Defined.

Lemma construction_succeeds_with_a_fallback_witness :
  ∃ m, pii_detector_init Demo.library true None
         (λ name, bool_decide (name = py "gemini-1.5-pro")) (Some (py "secret"))
       = Constructed m.
Proof.
  apply (construction_succeeds_with_a_fallback Demo.library None
           (λ name, bool_decide (name = py "gemini-1.5-pro")) (py "secret")
           (py "gemini-1.5-pro")).
  - vm_compute. discriminate.
  - apply (bool_decide_unpack _). vm_compute. exact I.
  - reflexivity.
Defined.

(** ** Spans of a disabled category *)

(** X4. [redact_text] reads the settings again: the spans listed under a
    key whose flag is off change neither the text nor the numbering of the
    other spans, so the result is the one for the map without that key, and
    adding an entry under that key changes nothing. *)
Theorem disabled_spans_are_ignored (text : str) (settings : Settings)
    (detections : Detections) (k : str) :
  category_enabled settings k = false →
  redact_text text detections settings
  = redact_text text (filter (λ entry, entry.1 ≠ k) detections) settings
  ∧ ∀ items, redact_text text ((k, items) :: detections) settings
             = redact_text text detections settings.
Proof.
  intros Hoff.
  destruct (disabled_category_is_not_redacted text settings detections k Hoff)
    as [_ Hsame].
  split; [done|]. intros items.
  destruct (disabled_category_is_not_redacted text settings
              ((k, items) :: detections) k Hoff) as [_ ->].
  rewrite filter_cons. simpl. by destruct (decide (k ≠ k)).
Qed.

Lemma disabled_spans_are_ignored_witness :
  redact_text mail_text [(py "emails", [detection (py "email") (py "bob@x.io") 5 13])]
              emails_disabled
  = Ok mail_text.
Proof.
  destruct (disabled_spans_are_ignored mail_text emails_disabled [] (py "emails"))
    as [_ ->].
  - reflexivity.
  - reflexivity.
Defined.

(** ** Where an ill-typed span can come from *)

Lemma foldl_invariant {A B : Type} (P : A → Prop) (f : A → B → A) (l : list B)
    (a : A) :
  P a → (∀ a b, P a → b ∈ l → P (f a b)) → P (foldl f a l).
Proof.
  revert a. induction l as [|b l IH]; intros a Ha Hf; simpl; [done|].
  apply IH; [apply Hf; [done|left]|]. intros a' b' Ha' Hb'. apply Hf; [done|by right].
Qed.

Lemma typed_snoc (l : list Item) (x : Item) :
  Forall (λ i, is_typed i = true) l → is_typed x = true →
  Forall (λ i, is_typed i = true) (l ++ [x]).
Proof. intros Hl Hx. apply Forall_app. split; [done|by constructor]. Qed.

Lemma merge_from_typed (current : Item) (rest : list Item) :
  is_typed current = true → Forall (λ i, is_typed i = true) rest →
  Forall (λ i, is_typed i = true) (merge_from current rest).
Proof.
  revert current. induction rest as [|next rest IH]; intros current Hc Hrest; simpl.
  - by constructor.
  - inversion_clear Hrest as [|? ? Hn Hr].
    destruct (_ <=? 5); [by apply IH|]. constructor; [done|by apply IH].
Qed.

Lemma merge_names_typed (names : list Item) :
  Forall (λ i, is_typed i = true) names →
  Forall (λ i, is_typed i = true) (merge_names names).
Proof.
  intros Hn. rewrite merge_names_fused.
  assert (Forall (λ i, is_typed i = true) (stable_sort start_le names)) as Hs
    by by rewrite stable_sort_perm.
  destruct (stable_sort start_le names) as [|first rest]; [done|].
  inversion_clear Hs. by apply merge_from_typed.
Qed.

Lemma add_to_group_typed (groups groups' : list (list Item)) (item : Item) :
  Forall (Forall (λ i, is_typed i = true)) groups → is_typed item = true →
  add_to_group groups item = Some groups' →
  Forall (Forall (λ i, is_typed i = true)) groups'.
Proof.
  revert groups'. induction groups as [|g groups IH]; intros groups' Hg Hi; simpl; [done|].
  inversion_clear Hg as [|? ? Hg1 Hgs].
  destruct (existsb _ g).
  - intros [= <-]. constructor; [by apply typed_snoc|done].
  - destruct (add_to_group groups item) as [rest|]; [|done].
    intros [= <-]. constructor; [done|by apply IH].
Qed.

Lemma name_groups_typed (pool : list Item) :
  Forall (λ i, is_typed i = true) pool →
  Forall (Forall (λ i, is_typed i = true)) (name_groups_of pool).
Proof.
  intros Hp. unfold name_groups_of.
  assert (Forall (λ i, is_typed i = true) (stable_sort start_le pool)) as Hs
    by by rewrite stable_sort_perm.
  apply foldl_invariant; [constructor|].
  intros groups item Hg Hin. rewrite Forall_forall in Hs.
  unfold group_step. destruct (add_to_group groups item) as [groups'|] eqn:E.
  - by apply (add_to_group_typed groups groups' item Hg (Hs item Hin)).
  - apply Forall_app. split; [done|]. repeat constructor. by apply Hs.
Qed.

Section Typed.
Context {World : Type} (lib : Library) (self : PIIDetector World).

Lemma produce_typed (text : str) (settings : Settings) :
  Forall (λ entry, Forall (λ i, is_typed i = true) entry.2)
         (produce lib self text settings).
Proof.
  assert (Forall (λ i, is_typed i = true) (detect_names self text settings)) as Hnames.
  { unfold detect_names. destruct (nlp self) as [nlp_call|]; [|done].
    destruct (negb _); [done|]. apply merge_names_typed.
    apply (foldl_invariant (λ st, Forall (λ i, is_typed i = true) st.1)); [done|].
    intros [names seen] ent Hst _. unfold name_step.
    case_bool_decide; [|done]. destruct (_ <? 2); [done|].
    case_bool_decide; [done|]. by apply typed_snoc. }
  assert (Forall (λ i, is_typed i = true) (detect_usernames self text settings))
    as Husers.
  { unfold detect_usernames. destruct (negb _); [done|].
    apply (foldl_invariant (λ st, Forall (λ i, is_typed i = true) st.1)); [done|].
    intros [names seen] m Hst _. unfold username_step.
    case_bool_decide; [done|]. destruct (contains _ _); [done|].
    by apply typed_snoc. }
  unfold produce. repeat constructor; simpl.
  - unfold detect_emails. destruct (negb _); [done|].
    apply Forall_fmap, Forall_forall. done.
  - unfold detect_phones. destruct (negb _); [done|].
    apply (foldl_invariant (λ st, Forall (λ i, is_typed i = true) st.1)); [done|].
    intros st pattern Hst _.
    apply (foldl_invariant (λ st, Forall (λ i, is_typed i = true) st.1)); [done|].
    intros [phones seen] m Hp _. unfold phone_step.
    case_bool_decide; [done|]. destruct (10 <=? _); [|done]. by apply typed_snoc.
  - apply foldl_invariant; [done|]. intros names username Hn Hu.
    rewrite Forall_forall in Husers. unfold add_username.
    case_bool_decide; [done|]. destruct (existsb _ _); [done|].
    apply typed_snoc; [done|]. by apply Husers.
  - unfold detect_addresses. destruct (negb _); [done|].
    apply (foldl_invariant (λ st, Forall (λ i, is_typed i = true) st.1)); [done|].
    intros st pattern Hst _.
    apply (foldl_invariant (λ st, Forall (λ i, is_typed i = true) st.1)); [done|].
    intros [addresses seen] m Hp _. unfold address_step.
    case_bool_decide; [done|]. by apply typed_snoc.
  - unfold detect_ssn. destruct (negb _); [done|].
    apply Forall_fmap, Forall_forall. done.
  - unfold detect_credit_cards. destruct (negb _); [done|].
    apply Forall_fmap, Forall_forall. done.
Qed.

Lemma with_reasoning_typed (item : Item) (tag : pyval) :
  is_typed (with_reasoning item tag) = is_typed item.
Proof. done. Qed.

Lemma validate_group_typed (text pii_type : str) (acc res group_ : list Item)
    (w w' : World) :
  Forall (λ i, is_typed i = true) acc → Forall (λ i, is_typed i = true) group_ →
  validate_group lib self text pii_type acc group_ w = (Ok res, w') →
  Forall (λ i, is_typed i = true) res.
Proof.
  intros Hacc Hg. unfold validate_group. destruct group_ as [|first [|second others]].
  - by intros [= <- _].
  - inversion_clear Hg as [|? ? Hf _].
    intros ([is_valid r] & w1 & _ & Hret)%bind_ok.
    destruct (truthy is_valid); [|destruct (existsb _ _)];
      injection Hret as <- _; try done; by apply typed_snoc.
  - intros ([is_valid r] & w1 & _ & Hret)%bind_ok.
    destruct (truthy is_valid); injection Hret as <- _; by apply typed_snoc.
Qed.

Lemma for_each_invariant {A S : Type} (P : S → Prop) (body : S → A → M World S)
    (xs : list A) (acc res : S) (w w' : World) :
  P acc →
  (∀ acc x w res w', P acc → x ∈ xs → body acc x w = (Ok res, w') → P res) →
  for_each body xs acc w = (Ok res, w') → P res.
Proof.
  revert acc w. induction xs as [|x xs IH]; intros acc w Hacc Hbody; simpl.
  - by intros [= <- _].
  - intros (acc1 & w1 & Hx & Hrest)%bind_ok.
    apply (IH acc1 w1); [|by intros; eapply Hbody; [|right|]|done].
    eapply Hbody; [done|left|done].
Qed.

Lemma validate_category_typed (text : str) (acc res : Detections)
    (entry : str * list Item) (w w' : World) :
  Forall (λ entry, Forall (λ i, is_typed i = true) entry.2) acc →
  Forall (λ i, is_typed i = true) entry.2 →
  validate_category lib self text acc entry w = (Ok res, w') →
  Forall (λ entry, Forall (λ i, is_typed i = true) entry.2) res.
Proof.
  destruct entry as [pii_type items]. simpl. intros Hacc Hitems.
  unfold validate_category.
  intros (validated & w1 & Hv & Hret)%bind_ok. injection Hret as <- _.
  apply Forall_app. split; [done|]. constructor; [|done]. simpl.
  case_bool_decide.
  - fold (name_groups_of items) in Hv.
    pose proof (name_groups_typed items Hitems) as Hgroups.
    rewrite Forall_forall in Hgroups.
    eapply (for_each_invariant (Forall (λ i, is_typed i = true))); [| |exact Hv];
      [done|].
    intros sofar group_ w2 res w3 Hdone Hin Hbody.
    eapply validate_group_typed; [exact Hdone|by apply Hgroups|exact Hbody].
  - rewrite Forall_forall in Hitems.
    eapply (for_each_invariant (Forall (λ i, is_typed i = true))); [| |exact Hv];
      [done|].
    intros sofar item w2 res w3 Hdone Hin. unfold validate_single.
    intros ([is_valid r] & w4 & _ & Hret)%bind_ok.
    destruct (truthy is_valid); injection Hret as <- _; [|done].
    apply typed_snoc; [exact Hdone|]. rewrite with_reasoning_typed. by apply Hitems.
Qed.

(** The validated spans hold a string and two integers, each of them. *)
Lemma validated_typed (text : str) (settings : Settings)
    (validated : Detections) (w w' : World) :
  for_each (validate_category lib self text) (produce lib self text settings) [] w
  = (Ok validated, w') →
  Forall (λ entry, Forall (λ i, is_typed i = true) entry.2) validated.
Proof.
  pose proof (produce_typed text settings) as Hp. rewrite Forall_forall in Hp.
  apply (for_each_invariant
           (Forall (λ entry : str * list Item,
                      Forall (λ i, is_typed i = true) entry.2))); [done|].
  intros acc entry w1 res w2 Hacc Hin Hbody.
  eapply validate_category_typed; [exact Hacc|by apply Hp|exact Hbody].
Qed.

Lemma add_discoveries_typed (d res : Detections) (news : list Discovery) :
  Forall (λ entry, Forall (λ i, gemini_discovered i = false → is_typed i = true)
                          entry.2) d →
  add_discoveries d news = Ok res →
  Forall (λ entry, Forall (λ i, gemini_discovered i = false → is_typed i = true)
                          entry.2) res.
Proof.
  revert d. induction news as [|new_det news IH]; intros d Hd; simpl.
  - by intros [= <-].
  - destruct (add_discovery d new_det) as [d1|] eqn:Hadd; [|done].
    apply IH. unfold add_discovery in Hadd.
    destruct (mapped_type_of (nd_type new_det)) as [k|]; [|done].
    destruct (existsb _ _); injection Hadd as <-; [done|].
    apply (dict_append_all
             (Forall (λ i, gemini_discovered i = false → is_typed i = true)));
      [done|].
    apply Forall_app. split; [|by repeat constructor].
    clear -Hd. induction Hd as [|[k' l] d Hl _ IH]; simpl; [done|].
    by case_bool_decide.
Qed.

(** X20. Whenever [detect_all] returns, every span of its result that is
    not marked as discovered by the oracle holds a string as its value and
    integers as its offsets: the producers build such spans and validation
    keeps them so. A span of another shape can only be one the oracle has
    discovered. *)
Theorem only_discovered_spans_are_ill_typed (text : str) (settings : Settings)
    (w w' : World) (results : Detections) (summary key : str) (item : Item) :
  detect_all lib self text settings w = (Ok (results, summary), w') →
  item ∈ dict_get results key [] →
  gemini_discovered item = false →
  ∃ v s e, stored_value item = VStr v ∧ stored_start item = VInt s
           ∧ stored_end item = VInt e.
Proof.
  unfold detect_all. intros Hrun Hin Hold.
  apply bind_ok in Hrun as (validated & w1 & Hv & Hrest).
  apply bind_ok in Hrest as (news & w2 & _ & Hrest).
  apply bind_ok in Hrest as (added & w3 & Hadd & Hrest).
  apply bind_ok in Hrest as (expl & w4 & _ & Hret).
  injection Hret as <- _ _. unfold lift in Hadd. injection Hadd as Hadd _.
  apply validated_typed in Hv.
  assert (Forall (λ entry : str * list Item,
                    Forall (λ i, gemini_discovered i = false → is_typed i = true)
                           entry.2) validated) as Hv'.
  { eapply Forall_impl; [exact Hv|]. intros entry He.
    eapply Forall_impl; [exact He|]. auto. }
  pose proof (add_discoveries_typed validated added news Hv' Hadd) as Hall.
  assert (Forall (λ i, gemini_discovered i = false → is_typed i = true)
                 (dict_get added key [])) as Hkey.
  { clear -Hall. induction Hall as [|[k' l] d Hl _ IH]; simpl; [done|].
    by case_bool_decide. }
  rewrite Forall_forall in Hkey. specialize (Hkey item Hin Hold).
  unfold is_typed in Hkey.
  destruct (stored_value item) as [| | |v| |]; simpl in Hkey; try discriminate.
  destruct (stored_start item) as [| |s| | |]; simpl in Hkey; try discriminate.
  destruct (stored_end item) as [| |e| | |]; simpl in Hkey; try discriminate.
  by exists v, s, e.
Qed.

End Typed.

Lemma only_discovered_spans_are_ill_typed_witness :
  ∃ v s e,
    stored_value (with_reasoning (detection (py "email") (py "bob@x.io") 5 13)
                                 (VStr (py "ok"))) = VStr v
    ∧ stored_start (with_reasoning (detection (py "email") (py "bob@x.io") 5 13)
                                   (VStr (py "ok"))) = VInt s
    ∧ stored_end (with_reasoning (detection (py "email") (py "bob@x.io") 5 13)
                                 (VStr (py "ok"))) = VInt e.
Proof.
  eapply (only_discovered_spans_are_ill_typed quoted_offsets_library
            quoted_offsets_detector mail_text custom_style 0%nat 3%nat _ _
            (py "emails")).
  - vm_compute. reflexivity.
  - apply list_elem_of_lookup. by exists 0%nat.
  - reflexivity.
Defined.
